(** * Address book: validated fields, contact records and the birthday query

    A shallow embedding of [exercise_1.py]: the [Field] subclasses ([Name],
    [Phone], [Birthday]), the [Record] methods and the [AddressBook]
    operations, with the parts of Python's [re], [_strptime] and [datetime]
    modules they rest on.  Python exceptions are values of type [exn]; a
    call that may raise returns [exn + A], with [inl e] for "raise e". *)

From Stdlib Require Import ZArith NArith List String Ascii Bool Lia.
Import ListNotations.
Open Scope Z_scope.

(** ** Python values *)

(** A Python [str] is a sequence of Unicode code points. *)
Definition codepoint := N.
Definition str := list codepoint.

(** An ASCII literal of the source as a [str]. *)
Definition u (s : string) : str := map N_of_ascii (list_ascii_of_string s).

Definition str_eq_dec : forall a b : str, {a = b} + {a <> b} :=
  list_eq_dec N.eq_dec.

Definition str_eqb (a b : str) : bool := if str_eq_dec a b then true else false.

(** The exceptions the modelled code can raise.  [ValueError] carries its
    message, which the command layer prints; [OverflowError] is never
    caught by the program. *)
Inductive exn : Type :=
| ValueError (msg : string)
| OverflowError.

Definition result (A : Type) : Type := (exn + A)%type.

Definition ret {A} (a : A) : result A := inr a.
Definition raise {A} (e : exn) : result A := inl e.

Definition bind {A B} (m : result A) (k : A -> result B) : result B :=
  match m with
  | inl e => inl e
  | inr a => k a
  end.

Notation "x <- m ;; k" := (bind m (fun x => k))
  (at level 61, m at next level, right associativity).

(** ** Unicode decimal digits: the class [\d] of [re] on [str] patterns *)

(** First code point of every run of ten decimal digits (general category
    Nd) of the Unicode Character Database 15; the mathematical digits
    U+1D7CE..U+1D7FF are five such runs. *)
Definition Nd_blocks : list N :=
  [ 0x0030; 0x0660; 0x06F0; 0x07C0; 0x0966; 0x09E6; 0x0A66; 0x0AE6;
    0x0B66; 0x0BE6; 0x0C66; 0x0CE6; 0x0D66; 0x0DE6; 0x0E50; 0x0ED0;
    0x0F20; 0x1040; 0x1090; 0x17E0; 0x1810; 0x1946; 0x19D0; 0x1A80;
    0x1A90; 0x1B50; 0x1BB0; 0x1C40; 0x1C50; 0xA620; 0xA8D0; 0xA900;
    0xA9D0; 0xA9F0; 0xAA50; 0xABF0; 0xFF10; 0x104A0; 0x10D30; 0x11066;
    0x110F0; 0x11136; 0x111D0; 0x112F0; 0x11450; 0x114D0; 0x11650;
    0x116C0; 0x11730; 0x118E0; 0x11950; 0x11C50; 0x11D50; 0x11DA0;
    0x11F50; 0x16A60; 0x16AC0; 0x16B50; 0x1D7CE; 0x1D7D8; 0x1D7E2;
    0x1D7EC; 0x1D7F6; 0x1E140; 0x1E2F0; 0x1E4F0; 0x1E950; 0x1FBF0 ]%N.

(** The value of a decimal digit, [None] for any other character. *)
Fixpoint decimal_in (blocks : list N) (c : codepoint) : option N :=
  match blocks with
  | [] => None
  | b :: rest =>
      if ((b <=? c) && (c <? b + 10))%N then Some (c - b)%N
      else decimal_in rest c
  end.

Definition decimal_value (c : codepoint) : option N := decimal_in Nd_blocks c.

(** [\d] *)
Definition is_decimal (c : codepoint) : bool :=
  match decimal_value c with Some _ => true | None => false end.

(** [[0-9]] *)
Definition is_ascii_digit (c : codepoint) : bool :=
  ((0x30 <=? c) && (c <=? 0x39))%N.

(** [[lo-hi]] *)
Definition in_range (lo hi c : codepoint) : bool :=
  ((lo <=? c) && (c <=? hi))%N.

(** [re.fullmatch(r'\d{n}', s)] as a truth value. *)
Fixpoint fullmatch_digits (n : nat) (s : str) : bool :=
  match n, s with
  | O, [] => true
  | S n', c :: s' => is_decimal c && fullmatch_digits n' s'
  | _, _ => false
  end.

(** ** Fields *)

Record Name : Type := mkName { name_value : str }.

Record Phone : Type := mkPhone { phone_value : str }.

Definition msg_phone : string := "Phone number must be 10 digits.".

(** [Phone.__init__] *)
Definition Phone_init (value : str) : result Phone :=
  if negb (fullmatch_digits 10 value)
  then raise (ValueError msg_phone)
  else ret (mkPhone value).

(** ** The calendar of [datetime] *)

Definition MINYEAR : Z := 1.
Definition MAXYEAR : Z := 9999.
Definition MAXORDINAL : Z := 3652059.

(** [_is_leap] *)
Definition is_leap (year : Z) : bool :=
  (year mod 4 =? 0) && (negb (year mod 100 =? 0) || (year mod 400 =? 0)).

(** [_DAYS_IN_MONTH] *)
Definition DAYS_IN_MONTH (month : Z) : Z :=
  match month with
  | 1 => 31 | 2 => 28 | 3 => 31 | 4 => 30 | 5 => 31 | 6 => 30
  | 7 => 31 | 8 => 31 | 9 => 30 | 10 => 31 | 11 => 30 | 12 => 31
  | _ => -1
  end.

(** [_DAYS_BEFORE_MONTH] *)
Definition DAYS_BEFORE_MONTH (month : Z) : Z :=
  match month with
  | 1 => 0 | 2 => 31 | 3 => 59 | 4 => 90 | 5 => 120 | 6 => 151
  | 7 => 181 | 8 => 212 | 9 => 243 | 10 => 273 | 11 => 304 | 12 => 334
  | _ => -1
  end.

(** [_days_before_year] *)
Definition days_before_year (year : Z) : Z :=
  let y := year - 1 in y * 365 + y / 4 - y / 100 + y / 400.

(** [_days_in_month] *)
Definition days_in_month (year month : Z) : Z :=
  if (month =? 2) && is_leap year then 29 else DAYS_IN_MONTH month.

(** [_days_before_month] *)
Definition days_before_month (year month : Z) : Z :=
  DAYS_BEFORE_MONTH month + (if (2 <? month) && is_leap year then 1 else 0).

(** [_ymd2ord] *)
Definition ymd2ord (year month day : Z) : Z :=
  days_before_year year + days_before_month year month + day.

Definition DI400Y : Z := 146097.
Definition DI100Y : Z := 36524.
Definition DI4Y : Z := 1461.

(** [_ord2ymd] *)
Definition ord2ymd (n0 : Z) : Z * Z * Z :=
  let n := n0 - 1 in
  let n400 := n / DI400Y in
  let n := n mod DI400Y in
  let year := n400 * 400 + 1 in
  let n100 := n / DI100Y in
  let n := n mod DI100Y in
  let n4 := n / DI4Y in
  let n := n mod DI4Y in
  let n1 := n / 365 in
  let n := n mod 365 in
  let year := year + n100 * 100 + n4 * 4 + n1 in
  if (n1 =? 4) || (n100 =? 4) then (year - 1, 12, 31)
  else
    let leapyear := (n1 =? 3) && (negb (n4 =? 24) || (n100 =? 3)) in
    let month := Z.shiftr (n + 50) 5 in
    let preceding :=
      DAYS_BEFORE_MONTH month + (if (2 <? month) && leapyear then 1 else 0) in
    if n <? preceding
    then
      let month := month - 1 in
      let preceding :=
        preceding
        - (DAYS_IN_MONTH month + (if (month =? 2) && leapyear then 1 else 0)) in
      (year, month, n - preceding + 1)
    else (year, month, n - preceding + 1).

(** A naive [datetime] object. *)
Record datetime : Type := mkdatetime {
  year : Z; month : Z; day : Z;
  hour : Z; minute : Z; second : Z; microsecond : Z
}.

Definition msg_year_range : string := "year is out of range".
Definition msg_month_range : string := "month must be in 1..12".
Definition msg_day_range : string := "day is out of range for month".

(** [_check_date_fields], the validation done by every constructor. *)
Definition check_date_fields (y m d : Z) : result unit :=
  if negb ((MINYEAR <=? y) && (y <=? MAXYEAR))
  then raise (ValueError msg_year_range)
  else if negb ((1 <=? m) && (m <=? 12))
  then raise (ValueError msg_month_range)
  else if negb ((1 <=? d) && (d <=? days_in_month y m))
  then raise (ValueError msg_day_range)
  else ret tt.

(** [datetime(y, m, d)]: midnight of the given day. *)
Definition datetime_new (y m d : Z) : result datetime :=
  _ <- check_date_fields y m d ;;
  ret (mkdatetime y m d 0 0 0 0).

(** [dt.replace(year=y)]: a new object built from the old fields. *)
Definition datetime_replace_year (dt : datetime) (y : Z) : result datetime :=
  _ <- check_date_fields y (month dt) (day dt) ;;
  ret (mkdatetime y (month dt) (day dt)
         (hour dt) (minute dt) (second dt) (microsecond dt)).

(** Comparison of naive datetimes: the field tuples, lexicographically. *)
Fixpoint cmp_fields (a b : list Z) : comparison :=
  match a, b with
  | x :: a', y :: b' =>
      match x ?= y with
      | Eq => cmp_fields a' b'
      | c => c
      end
  | [], [] => Eq
  | [], _ :: _ => Lt
  | _ :: _, [] => Gt
  end.

Definition getstate (d : datetime) : list Z :=
  [year d; month d; day d; hour d; minute d; second d; microsecond d].

Definition datetime_cmp (a b : datetime) : comparison :=
  cmp_fields (getstate a) (getstate b).

(** [a <= b] *)
Definition datetime_le (a b : datetime) : bool :=
  match datetime_cmp a b with Gt => false | _ => true end.

(** [a < b] *)
Definition datetime_lt (a b : datetime) : bool :=
  match datetime_cmp a b with Lt => true | _ => false end.

(** [dt.toordinal()] *)
Definition toordinal (dt : datetime) : Z := ymd2ord (year dt) (month dt) (day dt).

(** [dt + timedelta(days=days)].  The [timedelta] constructor refuses more
    than 999999999 days; the sum keeps the time of day and must fall on a
    day of the years 1..9999. *)
Definition datetime_add_days (dt : datetime) (days : Z) : result datetime :=
  if 999999999 <? Z.abs days then raise OverflowError
  else
    let o := toordinal dt + days in
    if (0 <? o) && (o <=? MAXORDINAL)
    then
      let '(y, m, d) := ord2ymd o in
      ret (mkdatetime y m d (hour dt) (minute dt) (second dt) (microsecond dt))
    else raise OverflowError.

(** ** [datetime.strptime(value, "%d.%m.%Y")]

    [_strptime] turns the format into the regular expression
    [(?P<d>3[0-1]|[1-2]\d|0[1-9]|[1-9]| [1-9])\.(?P<m>1[0-2]|0[1-9]|[1-9])\.(?P<Y>\d\d\d\d)],
    matches it at the start of the text, refuses text left over after the
    match, converts the three groups with [int] and builds the date.  The
    matcher below tries the alternatives of a group in the order of the
    pattern and backtracks into the next one when the rest of the pattern
    (the continuation [k]) fails. *)

Definition cp (a : ascii) : codepoint := N_of_ascii a.

Definition orelse {A} (x y : option A) : option A :=
  match x with
  | Some a => Some a
  | None => y
  end.

(** A piece of pattern made of one, or of two, character classes; the
    continuation gets the matched text and the text after it. *)
Definition one {A} (p : codepoint -> bool) (s : str)
    (k : str -> str -> option A) : option A :=
  match s with
  | c :: rest => if p c then k [c] rest else None
  | [] => None
  end.

Definition two {A} (p1 p2 : codepoint -> bool) (s : str)
    (k : str -> str -> option A) : option A :=
  match s with
  | c1 :: c2 :: rest => if p1 c1 && p2 c2 then k [c1; c2] rest else None
  | _ => None
  end.

Definition is_chr (a : ascii) (c : codepoint) : bool := (cp a =? c)%N.

(** [(?P<d>3[0-1]|[1-2]\d|0[1-9]|[1-9]| [1-9])] *)
Definition re_d {A} (s : str) (k : str -> str -> option A) : option A :=
  orelse (two (is_chr "3") (in_range (cp "0") (cp "1")) s k)
  (orelse (two (in_range (cp "1") (cp "2")) is_decimal s k)
  (orelse (two (is_chr "0") (in_range (cp "1") (cp "9")) s k)
  (orelse (one (in_range (cp "1") (cp "9")) s k)
          (two (is_chr " ") (in_range (cp "1") (cp "9")) s k)))).

(** [(?P<m>1[0-2]|0[1-9]|[1-9])] *)
Definition re_m {A} (s : str) (k : str -> str -> option A) : option A :=
  orelse (two (is_chr "1") (in_range (cp "0") (cp "2")) s k)
  (orelse (two (is_chr "0") (in_range (cp "1") (cp "9")) s k)
          (one (in_range (cp "1") (cp "9")) s k)).

(** [(?P<Y>\d\d\d\d)] *)
Definition re_Y {A} (s : str) (k : str -> str -> option A) : option A :=
  match s with
  | c1 :: c2 :: c3 :: c4 :: rest =>
      if is_decimal c1 && is_decimal c2 && is_decimal c3 && is_decimal c4
      then k [c1; c2; c3; c4] rest
      else None
  | _ => None
  end.

(** [\.] *)
Definition re_dot {A} (s : str) (k : str -> option A) : option A :=
  match s with
  | c :: rest => if is_chr "." c then k rest else None
  | [] => None
  end.

(** [format_regex.match(data_string)]: the groups d, m and Y of the first
    match, and the text after its end. *)
Definition format_regex_match (data_string : str)
    : option (str * str * str * str) :=
  re_d data_string (fun d s1 =>
  re_dot s1 (fun s2 =>
  re_m s2 (fun m s3 =>
  re_dot s3 (fun s4 =>
  re_Y s4 (fun Y s5 => Some (d, m, Y, s5)))))).

Definition msg_int : string := "invalid literal for int() with base 10".

Fixpoint int_digits (acc : Z) (s : str) : result Z :=
  match s with
  | [] => ret acc
  | c :: s' =>
      match decimal_value c with
      | Some v => int_digits (10 * acc + Z.of_N v) s'
      | None => raise (ValueError msg_int)
      end
  end.

Fixpoint lstrip (s : str) : str :=
  match s with
  | c :: s' => if is_chr " " c then lstrip s' else s
  | [] => []
  end.

(** [int(s)] on the text of a group: blanks before the digits are dropped
    and every decimal digit counts with its value. *)
Definition int (s : str) : result Z :=
  match lstrip s with
  | [] => raise (ValueError msg_int)
  | t => int_digits 0 t
  end.

Definition msg_no_match : string := "time data does not match format".
Definition msg_unconverted : string := "unconverted data remains".

Definition strptime_dmY (data_string : str) : result datetime :=
  match format_regex_match data_string with
  | None => raise (ValueError msg_no_match)
  | Some (d, m, Y, rest) =>
      match rest with
      | _ :: _ => raise (ValueError msg_unconverted)
      | [] =>
          year <- int Y ;;
          month <- int m ;;
          day <- int d ;;
          datetime_new year month day
      end
  end.

(** ** [dt.strftime("%d.%m.%Y")] *)

Definition digit_chr (n : Z) : codepoint := Z.to_N (48 + n).

(** Two and four digits, padded with zeros. *)
Definition pad2 (n : Z) : str := [digit_chr (n / 10); digit_chr (n mod 10)].

Definition pad4 (n : Z) : str :=
  [digit_chr (n / 1000); digit_chr (n / 100 mod 10);
   digit_chr (n / 10 mod 10); digit_chr (n mod 10)].

(** The decimal numeral of a year, without padding. *)
Definition decimal (n : Z) : str :=
  if n <? 10 then [digit_chr n]
  else if n <? 100 then pad2 n
  else if n <? 1000
  then [digit_chr (n / 100); digit_chr (n / 10 mod 10); digit_chr (n mod 10)]
  else pad4 n.

(** [%Y] is left to the C library, which pads years below 1000 with zeros
    on some platforms and not on others: [year_padded] says which. *)
Definition strftime_dmY (year_padded : bool) (dt : datetime) : str :=
  pad2 (day dt) ++ u "." ++ pad2 (month dt) ++ u "."
  ++ (if year_padded then pad4 (year dt) else decimal (year dt)).

Record Birthday : Type := mkBirthday { birthday_value : datetime }.

Definition msg_birthday : string := "Invalid date format. Use DD.MM.YYYY".

(** [Birthday.__init__]: only [ValueError] is caught and replaced. *)
Definition Birthday_init (value : str) : result Birthday :=
  match strptime_dmY value with
  | inr dt => ret (mkBirthday dt)
  | inl (ValueError _) => raise (ValueError msg_birthday)
  | inl e => raise e
  end.

(** ** [class Record] *)

Record ContactRecord : Type := mkRecord {
  name : Name;
  phones : list Phone;
  birthday : option Birthday
}.

Definition set_phones (self : ContactRecord) (ps : list Phone) : ContactRecord :=
  mkRecord (name self) ps (birthday self).

Definition set_birthday (self : ContactRecord) (b : option Birthday)
    : ContactRecord :=
  mkRecord (name self) (phones self) b.

(** [Record.__init__] *)
Definition Record_init (name : str) : ContactRecord :=
  mkRecord (mkName name) [] None.

(** A method call on a record: what it returns or raises, and the record
    as the call leaves it. *)
Definition method (A : Type) : Type := ContactRecord -> result A * ContactRecord.

(** [Record.add_phone] *)
Definition add_phone (phone_number : str) : method unit := fun self =>
  match Phone_init phone_number with
  | inl e => (inl e, self)
  | inr phone => (inr tt, set_phones self (phones self ++ [phone]))
  end.

(** [Record.remove_phone] *)
Definition remove_phone (phone_number : str) : method unit := fun self =>
  (inr tt,
   set_phones self
     (filter (fun p => negb (str_eqb (phone_value p) phone_number))
        (phones self))).

(** [l[idx] = v] for an index inside the list. *)
Fixpoint setitem {A} (l : list A) (idx : nat) (v : A) : list A :=
  match l, idx with
  | [], _ => []
  | _ :: t, O => v :: t
  | h :: t, S i => h :: setitem t i v
  end.

(** The loop of [Record.edit_phone] over [enumerate(self.phones)], from
    index [idx] on. *)
Fixpoint edit_phone_from (old_phone new_phone : str) (idx : nat)
    (rest : list Phone) : method unit := fun self =>
  match rest with
  | [] => (inl (ValueError "Old phone number not found."), self)
  | phone :: rest' =>
      if str_eqb (phone_value phone) old_phone
      then
        match Phone_init new_phone with
        | inl e => (inl e, self)
        | inr p => (inr tt, set_phones self (setitem (phones self) idx p))
        end
      else edit_phone_from old_phone new_phone (S idx) rest' self
  end.

(** [Record.edit_phone] *)
Definition edit_phone (old_phone new_phone : str) : method unit := fun self =>
  edit_phone_from old_phone new_phone 0 (phones self) self.

(** [Record.find_phone] *)
Definition find_phone (phone_number : str) (self : ContactRecord)
    : option Phone :=
  find (fun p => str_eqb (phone_value p) phone_number) (phones self).

(** [Record.add_birthday] *)
Definition add_birthday (birthday : str) : method unit := fun self =>
  match Birthday_init birthday with
  | inl e => (inl e, self)
  | inr b => (inr tt, set_birthday self (Some b))
  end.

(** [sep.join(l)] *)
Fixpoint join (sep : str) (l : list str) : str :=
  match l with
  | [] => []
  | x :: rest =>
      match rest with
      | [] => x
      | _ :: _ => x ++ sep ++ join sep rest
      end
  end.

(** [Record.__str__] *)
Definition Record_str (year_padded : bool) (self : ContactRecord) : str :=
  let phones := join (u "; ") (map phone_value (phones self)) in
  let birthday :=
    match birthday self with
    | Some b => strftime_dmY year_padded (birthday_value b)
    | None => u "No birthday"
    end in
  u "Contact name: " ++ name_value (name self) ++ u ", phones: " ++ phones
  ++ u ", birthday: " ++ birthday.

(** ** [class AddressBook]

    [self.data] is a [dict]: its entries have distinct keys and are kept
    in the order of their first insertion. *)
Definition AddressBook : Type := list (str * ContactRecord).

Definition empty_book : AddressBook := [].

(** [d[key] = v] *)
Fixpoint dict_setitem (key : str) (v : ContactRecord) (d : AddressBook)
    : AddressBook :=
  match d with
  | [] => [(key, v)]
  | (k, w) :: rest =>
      if str_eqb k key then (k, v) :: rest
      else (k, w) :: dict_setitem key v rest
  end.

(** [d.get(key, None)] *)
Fixpoint dict_get (key : str) (d : AddressBook) : option ContactRecord :=
  match d with
  | [] => None
  | (k, w) :: rest => if str_eqb k key then Some w else dict_get key rest
  end.

(** [key in d] *)
Definition dict_contains (key : str) (d : AddressBook) : bool :=
  match dict_get key d with Some _ => true | None => false end.

(** [del d[key]] for a key of [d] *)
Fixpoint dict_delitem (key : str) (d : AddressBook) : AddressBook :=
  match d with
  | [] => []
  | (k, w) :: rest =>
      if str_eqb k key then rest else (k, w) :: dict_delitem key rest
  end.

(** [d.values()] *)
Definition dict_values (d : AddressBook) : list ContactRecord := map snd d.

Definition dict_keys (d : AddressBook) : list str := map fst d.

(** [AddressBook.add_record] *)
Definition add_record (record : ContactRecord) (self : AddressBook)
    : AddressBook :=
  dict_setitem (name_value (name record)) record self.

(** [AddressBook.find] *)
Definition find_record (name : str) (self : AddressBook)
    : option ContactRecord :=
  dict_get name self.

(** [AddressBook.delete] *)
Definition delete (name : str) (self : AddressBook) : AddressBook :=
  if dict_contains name self then dict_delitem name self else self.

(** The loop of [AddressBook.get_upcoming_birthdays] over the values still
    to visit, with the list [upcoming] built so far.  The chained
    comparison computes [today + timedelta(days=days)] only when
    [today <= birthday] holds. *)
Fixpoint upcoming_from (today : datetime) (days : Z)
    (values : list ContactRecord) (upcoming : list ContactRecord)
    : result (list ContactRecord) :=
  match values with
  | [] => ret upcoming
  | record :: rest =>
      match birthday record with
      | Some b =>
          bday <- datetime_replace_year (birthday_value b) (year today) ;;
          if datetime_le today bday
          then
            limit <- datetime_add_days today days ;;
            if datetime_le bday limit
            then upcoming_from today days rest (upcoming ++ [record])
            else upcoming_from today days rest upcoming
          else upcoming_from today days rest upcoming
      | None => upcoming_from today days rest upcoming
      end
  end.

(** [AddressBook.get_upcoming_birthdays], with the value [today] that
    [datetime.today()] returned. *)
Definition get_upcoming_birthdays (self : AddressBook) (today : datetime)
    (days : Z) : result (list ContactRecord) :=
  upcoming_from today days (dict_values self) [].

(** The calls that act on a directory, and a session of such calls. *)
Inductive call : Type :=
| CallAdd (record : ContactRecord)
| CallFind (name : str)
| CallDelete (name : str).

Definition step (self : AddressBook) (c : call) : AddressBook :=
  match c with
  | CallAdd record => add_record record self
  | CallFind _ => self
  | CallDelete name => delete name self
  end.

Definition run (calls : list call) (self : AddressBook) : AddressBook :=
  fold_left step calls self.

(** ** The command layer

    The functions of the module below [class AddressBook].  A record that
    [book.find] returns is the object stored in the directory, so a method
    call on it changes the entry it came from: the entry of the key [name]
    is replaced, in place, by the record as the call leaves it.  (The
    program stores every [Record] object under one key only.) *)

(** [str.isspace], the separators of [str.split()] and [str.strip()]. *)
Definition isspace (c : codepoint) : bool :=
  (in_range 0x09 0x0D c || in_range 0x1C 0x1F c || (c =? 0x20)
   || (c =? 0x85) || (c =? 0xA0) || (c =? 0x1680)
   || in_range 0x2000 0x200A c || (c =? 0x2028) || (c =? 0x2029)
   || (c =? 0x202F) || (c =? 0x205F) || (c =? 0x3000))%N.

(** [s.lstrip()] *)
Fixpoint lstrip_space (s : str) : str :=
  match s with
  | c :: s' => if isspace c then lstrip_space s' else s
  | [] => []
  end.

(** [s.strip()] *)
Definition strip (s : str) : str :=
  rev (lstrip_space (rev (lstrip_space s))).

(** The characters of [s] before its first blank, and the rest of [s]. *)
Fixpoint token (s : str) : str * str :=
  match s with
  | c :: s' =>
      if isspace c then ([], s)
      else let (t, rest) := token s' in (c :: t, rest)
  | [] => ([], [])
  end.

(** [s.split()]: the maximal runs of characters that are not blanks;
    [word] is the run being read. *)
Fixpoint split_from (word : str) (s : str) : list str :=
  match s with
  | [] =>
      match word with
      | [] => []
      | _ :: _ => [word]
      end
  | c :: s' =>
      if isspace c
      then
        match word with
        | [] => split_from [] s'
        | _ :: _ => word :: split_from [] s'
        end
      else split_from (word ++ [c]) s'
  end.

Definition split (s : str) : list str := split_from [] s.

(** [s.split(maxsplit=1)]: the first word, and what follows the blanks
    after it, up to the end of [s]. *)
Definition split_maxsplit_1 (s : str) : list str :=
  match lstrip_space s with
  | [] => []
  | c :: s' =>
      let (word, rest) := token (c :: s') in
      match lstrip_space rest with
      | [] => [word]
      | d :: rest' => [word; d :: rest']
      end
  end.

Module Bot.

(** What a call of the command layer can raise. *)
Inductive pyexn : Type :=
| Core (e : exn)
| KeyError
| IndexError
| EOFError.

Definition msg_unpack : string := "too many values to unpack (expected 2)".

(** [@input_error]: the value of the call, or the text that stands for a
    [KeyError], a [ValueError] or an [IndexError]; any other exception
    goes on to the caller. *)
Definition input_error {A} (r : pyexn + A) : pyexn + (str + A) :=
  match r with
  | inr a => inr (inr a)
  | inl KeyError => inr (inl (u "Contact not found."))
  | inl (Core (ValueError msg)) => inr (inl (u msg))
  | inl IndexError => inr (inl (u "Enter the argument for the command."))
  | inl e => inl e
  end.

(** A decorated command returns a text either way. *)
Definition shown (r : pyexn + (str + str)) : pyexn + str :=
  match r with
  | inl e => inl e
  | inr (inl message) => inr message
  | inr (inr message) => inr message
  end.

(** The body of [parse_input]. *)
Definition parse_input_body (command_input : str) : pyexn + (str * list str) :=
  match split_maxsplit_1 command_input with
  | [] => inl IndexError
  | command :: rest =>
      inr (command,
           match rest with
           | [] => []
           | part :: _ => split part
           end)
  end.

(** [parse_input] *)
Definition parse_input (command_input : str)
    : pyexn + (str + str * list str) :=
  input_error (parse_input_body command_input).

(** The body of [add_contact]. *)
Definition add_contact_body (args : list str) (book : AddressBook)
    : (pyexn + str) * AddressBook :=
  if (List.length args <? 2)%nat
  then (inr (u "Give me name and phone please."), book)
  else
    match args with
    | [name; phone] =>
        let '(record, book, message) :=
          match find_record name book with
          | None =>
              let record := Record_init name in
              (record, add_record record book, u "Contact added.")
          | Some record => (record, book, u "Contact updated.")
          end in
        match phone with
        | _ :: _ =>
            match add_phone phone record with
            | (inl e, _) => (inl (Core e), book)
            | (inr _, record) => (inr message, dict_setitem name record book)
            end
        | [] => (inr message, book)
        end
    | _ => (inl (Core (ValueError msg_unpack)), book)
    end.

(** [add_contact] *)
Definition add_contact (args : list str) (book : AddressBook)
    : (pyexn + str) * AddressBook :=
  let (r, book) := add_contact_body args book in
  (shown (input_error r), book).

(** The body of [add_birthday]. *)
Definition add_birthday_body (args : list str) (book : AddressBook)
    : (pyexn + str) * AddressBook :=
  if (List.length args <? 2)%nat
  then (inr (u "Give me name and birthday please."), book)
  else
    match args with
    | [name; birthday] =>
        match find_record name book with
        | Some record =>
            match add_birthday birthday record with
            | (inl e, _) => (inl (Core e), book)
            | (inr _, record) =>
                (inr (u "Birthday for '" ++ name ++ u "' added: " ++ birthday
                      ++ u "."),
                 dict_setitem name record book)
            end
        | None => (inr (u "Contact not found."), book)
        end
    | _ => (inl (Core (ValueError msg_unpack)), book)
    end.

(** [add_birthday] *)
Definition add_birthday (args : list str) (book : AddressBook)
    : (pyexn + str) * AddressBook :=
  let (r, book) := add_birthday_body args book in
  (shown (input_error r), book).

(** The body of [show_birthday]; it reads the directory only. *)
Definition show_birthday_body (year_padded : bool) (args : list str)
    (book : AddressBook) : pyexn + str :=
  match args with
  | [] => inr (u "Give me name please.")
  | name :: _ =>
      match find_record name book with
      | Some (mkRecord _ _ (Some b)) =>
          inr (u "Birthday for '" ++ name ++ u "': "
               ++ strftime_dmY year_padded (birthday_value b) ++ u ".")
      | _ => inr (u "Birthday not found or contact not found.")
      end
  end.

(** [show_birthday] *)
Definition show_birthday (year_padded : bool) (args : list str)
    (book : AddressBook) : pyexn + str :=
  shown (input_error (show_birthday_body year_padded args book)).

(** The body of [birthdays], with the value [today] of the clock. *)
Definition birthdays_body (year_padded : bool) (today : datetime)
    (args : list str) (book : AddressBook) : pyexn + str :=
  match get_upcoming_birthdays book today 7 with
  | inl e => inl (Core e)
  | inr [] => inr (u "No upcoming birthdays.")
  | inr (r :: upcoming) =>
      inr (join [10%N] (map (Record_str year_padded) (r :: upcoming)))
  end.

(** [birthdays] *)
Definition birthdays (year_padded : bool) (today : datetime)
    (args : list str) (book : AddressBook) : pyexn + str :=
  shown (input_error (birthdays_body year_padded today args book)).

(** One turn of the loop of [main]: what it printed and the directory it
    leaves, whether the loop goes on, ends with [save_data], or is left by
    an exception nothing catches. *)
Inductive outcome : Type :=
| Continue (printed : list str) (book : AddressBook)
| Break (printed : list str) (saved : AddressBook)
| Uncaught (e : pyexn) (book : AddressBook).

Definition printing (r : (pyexn + str) * AddressBook) : outcome :=
  match r with
  | (inr message, book) => Continue [message] book
  | (inl e, book) => Uncaught e book
  end.

(** The branch of the command "change". *)
Definition change (args : list str) (book : AddressBook) : outcome :=
  match args with
  | [name; old_phone; new_phone] =>
      match find_record name book with
      | Some record =>
          match edit_phone old_phone new_phone record with
          | (inr _, record) =>
              Continue
                [u "Phone number for '" ++ name ++ u "' updated from "
                 ++ old_phone ++ u " to " ++ new_phone ++ u "."]
                (dict_setitem name record book)
          | (inl (ValueError msg), _) => Continue [u msg] book
          | (inl e, _) => Uncaught (Core e) book
          end
      | None => Continue [u "Contact not found."] book
      end
  | _ => Continue [u "Give me name, old phone, and new phone please."] book
  end.

(** The branch of the command "phone". *)
Definition phone (args : list str) (book : AddressBook) : outcome :=
  match args with
  | [name] =>
      match find_record name book with
      | Some record =>
          Continue
            [u "Phone numbers for '" ++ name ++ u "': "
             ++ join (u "; ") (map phone_value (phones record))]
            book
      | None => Continue [u "Contact not found."] book
      end
  | _ => Continue [u "Give me name please."] book
  end.

(** The branch of the command "all". *)
Definition all (year_padded : bool) (book : AddressBook) : outcome :=
  match book with
  | _ :: _ => Continue (map (Record_str year_padded) (dict_values book)) book
  | [] => Continue [u "No contacts found."] book
  end.

(** The branch of the command "delete". *)
Definition delete_contact (args : list str) (book : AddressBook) : outcome :=
  match args with
  | [name] => Continue [u "Contact '" ++ name ++ u "' deleted."] (delete name book)
  | _ => Continue [u "Give me name please."] book
  end.

(** The body of the loop of [main] for one line read by [input].  The text
    that [parse_input] returns for an empty line cannot be unpacked into
    [command, args]. *)
Definition turn (year_padded : bool) (today : datetime) (line : str)
    (book : AddressBook) : outcome :=
  match parse_input (strip line) with
  | inl e => Uncaught e book
  | inr (inl _) => Uncaught (Core (ValueError msg_unpack)) book
  | inr (inr (command, args)) =>
      if str_eqb command (u "close") || str_eqb command (u "exit")
      then Break [u "Good bye!"] book
      else if str_eqb command (u "hello")
      then Continue [u "How can I help you?"] book
      else if str_eqb command (u "add")
      then printing (add_contact args book)
      else if str_eqb command (u "change") then change args book
      else if str_eqb command (u "phone") then phone args book
      else if str_eqb command (u "all") then all year_padded book
      else if str_eqb command (u "add-birthday")
      then printing (add_birthday args book)
      else if str_eqb command (u "show-birthday")
      then printing (show_birthday year_padded args book, book)
      else if str_eqb command (u "birthdays")
      then printing (birthdays year_padded today args book, book)
      else if str_eqb command (u "delete") then delete_contact args book
      else Continue [u "Invalid command. Please try again."] book
  end.

(** How [main] ends: after [save_data(book)], or by an exception that
    nothing catches, the directory of that moment unsaved. *)
Inductive ending : Type :=
| Saved (book : AddressBook)
| Crashed (e : pyexn) (book : AddressBook).

(** The loop of [main] over the lines that [input] returns, each with the
    value of the clock at its turn; when no line is left, [input] raises
    [EOFError].  The result is what was printed, and the ending. *)
Fixpoint loop (year_padded : bool) (inputs : list (datetime * str))
    (printed : list str) (book : AddressBook) : list str * ending :=
  match inputs with
  | [] => (printed, Crashed EOFError book)
  | (today, line) :: inputs' =>
      match turn year_padded today line book with
      | Continue out book' => loop year_padded inputs' (printed ++ out) book'
      | Break out saved => (printed ++ out, Saved saved)
      | Uncaught e book' => (printed, Crashed e book')
      end
  end.

(** [load_data], where [file] is the directory that was pickled into the
    file, if the file is there. *)
Definition load_data (file : option AddressBook) : AddressBook :=
  match file with
  | Some book => book
  | None => empty_book
  end.

(** [main] *)
Definition main (year_padded : bool) (file : option AddressBook)
    (inputs : list (datetime * str)) : list str * ending :=
  loop year_padded inputs [u "Welcome to the assistant bot!"] (load_data file).

End Bot.

(** ** Properties stated about the model *)

(** The invariant of a directory: every record is stored under its name. *)
Definition keys_match (d : AddressBook) : Prop :=
  Forall (fun e => name_value (name (snd e)) = fst e) d.

(** The keys of a [dict] are distinct. *)
Definition distinct_keys (d : AddressBook) : Prop := NoDup (dict_keys d).

(** What the loop of [get_upcoming_birthdays] decides for one record:
    [true] when the record is appended to [upcoming]. *)
Definition visit (today : datetime) (days : Z) (record : ContactRecord)
    : result bool :=
  match birthday record with
  | Some b =>
      bday <- datetime_replace_year (birthday_value b) (year today) ;;
      if datetime_le today bday
      then limit <- datetime_add_days today days ;;
           ret (datetime_le bday limit)
      else ret false
  | None => ret false
  end.

Definition selected (today : datetime) (days : Z) (record : ContactRecord)
    : bool :=
  match visit today days record with
  | inr true => true
  | _ => false
  end.

(** Text of the exact shape DD.MM.YYYY: two ASCII digits, a dot, two ASCII
    digits, a dot, four ASCII digits. *)
Definition canonical (s : str) : bool :=
  match s with
  | [d1; d2; p1; m1; m2; p2; y1; y2; y3; y4] =>
      is_ascii_digit d1 && is_ascii_digit d2 && is_chr "." p1
      && is_ascii_digit m1 && is_ascii_digit m2 && is_chr "." p2
      && is_ascii_digit y1 && is_ascii_digit y2
      && is_ascii_digit y3 && is_ascii_digit y4
  | _ => false
  end.

(** A record with a name, no phone and the birthday read from [text]. *)
Definition record_born (nm text : str) : ContactRecord :=
  snd (add_birthday text (Record_init nm)).

(** ARABIC-INDIC DIGIT ONE .. ZERO: ten decimal digits, none of them ASCII. *)
Definition arabic_indic_phone : str :=
  [0x661; 0x662; 0x663; 0x664; 0x665; 0x666; 0x667; 0x668; 0x669; 0x660]%N.

(** The value of an ASCII digit, and the year, month and day that a text
    of the shape DD.MM.YYYY spells. *)
Definition digit (c : codepoint) : Z := Z.of_N c - 48.

Definition fields_of (s : str) : Z * Z * Z :=
  match s with
  | [d1; d2; _; m1; m2; _; y1; y2; y3; y4] =>
      (1000 * digit y1 + 100 * digit y2 + 10 * digit y3 + digit y4,
       10 * digit m1 + digit m2,
       10 * digit d1 + digit d2)
  | _ => (0, 0, 0)
  end.

(** The texts that the groups of the pattern of [strptime] match: a day is
    "30" or "31", "1" or "2" and a decimal digit, "0" and a digit from 1,
    a digit from 1 alone, or a blank and a digit from 1; a month is "10",
    "11" or "12", "0" and a digit from 1, or a digit from 1 alone; a year is
    four decimal digits. *)
Definition is_day_text (d : str) : bool :=
  match d with
  | [c] => in_range (cp "1") (cp "9") c
  | [c1; c2] =>
      (is_chr "3" c1 && in_range (cp "0") (cp "1") c2)
      || (in_range (cp "1") (cp "2") c1 && is_decimal c2)
      || (is_chr "0" c1 && in_range (cp "1") (cp "9") c2)
      || (is_chr " " c1 && in_range (cp "1") (cp "9") c2)
  | _ => false
  end.

Definition is_month_text (m : str) : bool :=
  match m with
  | [c] => in_range (cp "1") (cp "9") c
  | [c1; c2] =>
      (is_chr "1" c1 && in_range (cp "0") (cp "2") c2)
      || (is_chr "0" c1 && in_range (cp "1") (cp "9") c2)
  | _ => false
  end.

Definition is_year_text (Y : str) : bool :=
  match Y with
  | [c1; c2; c3; c4] =>
      is_decimal c1 && is_decimal c2 && is_decimal c3 && is_decimal c4
  | _ => false
  end.

(** The number that such a text spells: every decimal digit counts with
    its value, and a blank counts nothing. *)
Definition number (s : str) : Z :=
  fold_left
    (fun a c =>
       10 * a + match decimal_value c with Some v => Z.of_N v | None => 0 end)
    s 0.

(** The method calls that change a record, and a run of such calls: a call
    that raises leaves the record as it was. *)
Inductive record_call : Type :=
| DoAddPhone (phone_number : str)
| DoRemovePhone (phone_number : str)
| DoEditPhone (old_phone new_phone : str)
| DoAddBirthday (birthday : str).

Definition record_step (self : ContactRecord) (c : record_call)
    : ContactRecord :=
  match c with
  | DoAddPhone n => snd (add_phone n self)
  | DoRemovePhone n => snd (remove_phone n self)
  | DoEditPhone o n => snd (edit_phone o n self)
  | DoAddBirthday t => snd (add_birthday t self)
  end.

Definition record_run (calls : list record_call) (self : ContactRecord)
    : ContactRecord :=
  fold_left record_step calls self.

(** Every phone of the record has passed the check of [Phone]. *)
Definition phones_checked (self : ContactRecord) : Prop :=
  Forall (fun p => fullmatch_digits 10 (phone_value p) = true) (phones self).

(** The birthday of the record, if set, is a date of the calendar, at
    midnight. *)
Definition birthday_checked (self : ContactRecord) : Prop :=
  forall b, birthday self = Some b ->
    exists y m d,
      check_date_fields y m d = inr tt
      /\ birthday_value b = mkdatetime y m d 0 0 0 0.

(** A word: a text that is not empty and has no blank. *)
Definition is_word (w : str) : Prop :=
  w <> [] /\ Forall (fun c => isspace c = false) w.

(** The directory that a turn of the loop, or the whole run, leaves. *)
Definition book_after (o : Bot.outcome) : AddressBook :=
  match o with
  | Bot.Continue _ book => book
  | Bot.Break _ book => book
  | Bot.Uncaught _ book => book
  end.

Definition ending_book (e : Bot.ending) : AddressBook :=
  match e with
  | Bot.Saved book => book
  | Bot.Crashed _ book => book
  end.

(** A directory as the program builds it: distinct keys, every record
    under its name, with checked phones and a checked birthday. *)
Definition book_checked (book : AddressBook) : Prop :=
  keys_match book
  /\ distinct_keys book
  /\ Forall (fun e => phones_checked (snd e) /\ birthday_checked (snd e)) book.

(** * Theorems *)

(** ** Phone validation *)

Lemma str_eqb_true (a b : str) : str_eqb a b = true <-> a = b.
Proof.
  unfold str_eqb. destruct (str_eq_dec a b); split; congruence.
Qed.

Lemma str_eqb_false (a b : str) : str_eqb a b = false <-> a <> b.
Proof.
  unfold str_eqb. destruct (str_eq_dec a b); split; congruence.
Qed.

Lemma fullmatch_digits_spec (n : nat) (s : str) :
  fullmatch_digits n s = true <->
  List.length s = n /\ Forall (fun c => is_decimal c = true) s.
Proof.
  revert s; induction n as [|n IH]; intros [|c s]; simpl.
  - split; [intros _; split; [reflexivity | constructor] | reflexivity].
  - split; [discriminate | intros [H _]; discriminate].
  - split; [discriminate | intros [H _]; discriminate].
  - rewrite andb_true_iff, IH. split.
    + intros [Hc [Hl Hf]]. split; [now rewrite Hl | now constructor].
    + intros [Hl Hf]. inversion Hf; subst. injection Hl as Hl. auto.
Qed.

Lemma ascii_digit_range (c : codepoint) :
  is_ascii_digit c = true <-> (48 <= c <= 57)%N.
Proof.
  unfold is_ascii_digit. rewrite andb_true_iff, !N.leb_le. reflexivity.
Qed.

Lemma ascii_digit_value (c : codepoint) :
  is_ascii_digit c = true -> decimal_value c = Some (c - 48)%N.
Proof.
  intros H. apply ascii_digit_range in H.
  unfold decimal_value, Nd_blocks, decimal_in.
  replace ((48 <=? c)%N) with true by (symmetry; apply N.leb_le; lia).
  replace ((c <? 48 + 10)%N) with true by (symmetry; apply N.ltb_lt; lia).
  reflexivity.
Qed.

Lemma ascii_digit_is_decimal (c : codepoint) :
  is_ascii_digit c = true -> is_decimal c = true.
Proof.
  intros H. unfold is_decimal. now rewrite (ascii_digit_value c H).
Qed.

(** C4, as the code has it: [Phone(text)] succeeds exactly on ten
    characters of the class [\d], which holds the ASCII digits and the
    decimal digits of every other script; it then stores the text
    unchanged, and in every other case it raises
    "Phone number must be 10 digits.". *)
Theorem Phone_init_ten_decimal_digits (text : str) :
  (Phone_init text = inr (mkPhone text) <->
   List.length text = 10%nat /\ Forall (fun c => is_decimal c = true) text)
  /\ (Phone_init text = inl (ValueError "Phone number must be 10 digits.") <->
      ~ (List.length text = 10%nat
         /\ Forall (fun c => is_decimal c = true) text))
  /\ (forall p, Phone_init text = inr p -> phone_value p = text)
  /\ (List.length text = 10%nat
      /\ Forall (fun c => is_ascii_digit c = true) text ->
      Phone_init text = inr (mkPhone text)).
Proof.
  pose proof (fullmatch_digits_spec 10 text) as Hs.
  unfold Phone_init, raise, ret, msg_phone.
  destruct (fullmatch_digits 10 text) eqn:E; simpl.
  - repeat split; try tauto; try discriminate.
    intros p Hp. injection Hp as Hp. now subst p.
  - assert (Hn : ~ (List.length text = 10%nat
                    /\ Forall (fun c => is_decimal c = true) text)).
    { intros H. apply Hs in H. discriminate. }
    repeat split; try tauto; try discriminate.
    intros [Hl Hf]. exfalso. apply Hn. split; [assumption|].
    eapply Forall_impl; [|exact Hf]. apply ascii_digit_is_decimal.
Qed.

Lemma Phone_init_ten_decimal_digits_witness :
  Phone_init (u "0501234567") = inr (mkPhone (u "0501234567")).
Proof.
  apply (Phone_init_ten_decimal_digits (u "0501234567")).
  split; [reflexivity|]. repeat constructor.
Defined.

(** C4, the claim refuted: ten Arabic-Indic digits are not ASCII digits,
    and [Phone] accepts them. *)
Lemma Phone_init_accepts_non_ascii_digits :
  forallb is_ascii_digit arabic_indic_phone = false
  /\ Phone_init arabic_indic_phone = inr (mkPhone arabic_indic_phone).
Proof. split; reflexivity. Qed.

(** ** Editing a phone *)

Lemma edit_phone_from_absent (old_phone new_phone : str) (rest : list Phone) :
  forall idx self,
    (forall p, In p rest -> phone_value p <> old_phone) ->
    edit_phone_from old_phone new_phone idx rest self
    = (inl (ValueError "Old phone number not found."), self).
Proof.
  induction rest as [|p rest IH]; intros idx self H; simpl.
  - reflexivity.
  - assert (Hp : str_eqb (phone_value p) old_phone = false).
    { apply str_eqb_false, H. now left. }
    rewrite Hp. apply IH. intros q Hq. apply H. now right.
Qed.

Lemma edit_phone_from_invalid (old_phone new_phone : str) (e : exn)
    (rest : list Phone) :
  forall idx self,
    Phone_init new_phone = inl e ->
    (exists p, In p rest /\ phone_value p = old_phone) ->
    edit_phone_from old_phone new_phone idx rest self = (inl e, self).
Proof.
  induction rest as [|p rest IH]; intros idx self He [q [Hq Hv]]; simpl.
  - destruct Hq.
  - destruct (str_eqb (phone_value p) old_phone) eqn:Hp.
    + now rewrite He.
    + apply IH; [assumption|]. exists q. split; [|assumption].
      destruct Hq as [->|Hq]; [|assumption].
      apply str_eqb_false in Hp. contradiction.
Qed.

(** C6: when no phone of the record equals [old], [edit_phone(old, new)]
    raises "Old phone number not found." and leaves the record, and so its
    phone list, as it was. *)
Theorem edit_phone_old_absent (self : ContactRecord) (old_phone new_phone : str) :
  (forall p, In p (phones self) -> phone_value p <> old_phone) ->
  fst (edit_phone old_phone new_phone self)
  = inl (ValueError "Old phone number not found.")
  /\ phones (snd (edit_phone old_phone new_phone self)) = phones self
  /\ snd (edit_phone old_phone new_phone self) = self.
Proof.
  intros H. unfold edit_phone.
  rewrite (edit_phone_from_absent _ _ _ 0%nat self H). auto.
Qed.

Lemma edit_phone_old_absent_witness :
  let self := snd (add_phone (u "0501234567") (Record_init (u "Alice"))) in
  edit_phone (u "0970000000") (u "0931112233") self
  = (inl (ValueError "Old phone number not found."), self).
Proof.
  intros self.
  destruct (edit_phone_old_absent self (u "0970000000") (u "0931112233"))
    as [H1 [_ H3]].
  - intros p [<-|[]]. vm_compute. discriminate.
  - rewrite (surjective_pairing (edit_phone _ _ self)), H1, H3. reflexivity.
Defined.

(** C7: when a phone of the record equals [old] and [new] is refused by
    [Phone], [edit_phone(old, new)] raises "Phone number must be 10
    digits." and leaves the phone list as it was: nothing is replaced or
    removed. *)
Theorem edit_phone_new_invalid (self : ContactRecord) (old_phone new_phone : str) :
  (exists p, In p (phones self) /\ phone_value p = old_phone) ->
  fullmatch_digits 10 new_phone = false ->
  fst (edit_phone old_phone new_phone self)
  = inl (ValueError "Phone number must be 10 digits.")
  /\ phones (snd (edit_phone old_phone new_phone self)) = phones self
  /\ snd (edit_phone old_phone new_phone self) = self.
Proof.
  intros H Hn. unfold edit_phone.
  rewrite (edit_phone_from_invalid _ _ (ValueError msg_phone) _ 0%nat self).
  - auto.
  - unfold Phone_init. now rewrite Hn.
  - assumption.
Qed.

Lemma edit_phone_new_invalid_witness :
  let self := snd (add_phone (u "0501234567") (Record_init (u "Alice"))) in
  edit_phone (u "0501234567") (u "12345") self
  = (inl (ValueError "Phone number must be 10 digits."), self).
Proof.
  intros self.
  destruct (edit_phone_new_invalid self (u "0501234567") (u "12345"))
    as [H1 [_ H3]].
  - exists (mkPhone (u "0501234567")). split; [now left | reflexivity].
  - reflexivity.
  - rewrite (surjective_pairing (edit_phone _ _ self)), H1, H3. reflexivity.
Defined.

(** ** The directory *)

Lemma dict_get_None (key : str) (d : AddressBook) :
  dict_get key d = None <-> ~ In key (dict_keys d).
Proof.
  induction d as [|[k w] d IH]; simpl.
  - tauto.
  - destruct (str_eqb k key) eqn:E.
    + apply str_eqb_true in E. split; [discriminate | tauto].
    + apply str_eqb_false in E. tauto.
Qed.

Lemma dict_contains_In (key : str) (d : AddressBook) :
  dict_contains key d = true <-> In key (dict_keys d).
Proof.
  unfold dict_contains. pose proof (dict_get_None key d) as H.
  destruct (dict_get key d).
  - split; [intros _|reflexivity].
    destruct (in_dec str_eq_dec key (dict_keys d)) as [Hi|Hn]; [assumption|].
    apply H in Hn. discriminate.
  - split; [discriminate|]. intros Hi. exfalso. now apply (proj1 H).
Qed.

Lemma dict_get_app (key : str) (a b : AddressBook) :
  dict_get key (a ++ b)
  = match dict_get key a with Some w => Some w | None => dict_get key b end.
Proof.
  induction a as [|[k w] a IH]; simpl; [reflexivity|].
  now destruct (str_eqb k key).
Qed.

Lemma dict_delitem_split (key : str) (d : AddressBook) :
  In key (dict_keys d) ->
  exists pre w post,
    d = pre ++ (key, w) :: post
    /\ ~ In key (dict_keys pre)
    /\ dict_delitem key d = pre ++ post.
Proof.
  induction d as [|[k w] d IH]; simpl; [tauto|]. intros H.
  destruct (str_eqb k key) eqn:E.
  - apply str_eqb_true in E. subst k.
    exists [], w, d. simpl. tauto.
  - apply str_eqb_false in E. destruct H as [H|H]; [contradiction|].
    destruct (IH H) as (pre & w' & post & Hd & Hn & Hdel).
    exists ((k, w) :: pre), w', post. simpl. rewrite Hd at 1. rewrite Hdel.
    repeat split; tauto.
Qed.

Lemma keys_match_setitem (record : ContactRecord) (d : AddressBook) :
  keys_match d -> keys_match (add_record record d).
Proof.
  unfold keys_match, add_record.
  induction d as [|[k w] d IH]; simpl; intros H.
  - repeat constructor.
  - inversion H as [|? ? Hk Hd]; subst.
    destruct (str_eqb k (name_value (name record))) eqn:E.
    + apply str_eqb_true in E. constructor; [now simpl | assumption].
    + constructor; [assumption | now apply IH].
Qed.

Lemma keys_match_delitem (key : str) (d : AddressBook) :
  keys_match d -> keys_match (dict_delitem key d).
Proof.
  unfold keys_match. induction d as [|[k w] d IH]; simpl; intros H.
  - constructor.
  - inversion H; subst. destruct (str_eqb k key); [assumption|].
    constructor; [assumption | now apply IH].
Qed.

Lemma keys_match_step (self : AddressBook) (c : call) :
  keys_match self -> keys_match (step self c).
Proof.
  destruct c as [record|nm|nm]; simpl; intros H.
  - now apply keys_match_setitem.
  - assumption.
  - unfold delete. destruct (dict_contains nm self); [|assumption].
    now apply keys_match_delitem.
Qed.

Lemma keys_match_run (calls : list call) :
  forall self, keys_match self -> keys_match (run calls self).
Proof.
  unfold run. induction calls as [|c calls IH]; simpl; intros self H.
  - assumption.
  - apply IH. now apply keys_match_step.
Qed.

Lemma dict_get_In (key : str) (w : ContactRecord) (d : AddressBook) :
  dict_get key d = Some w -> In (key, w) d.
Proof.
  induction d as [|[k v] d IH]; simpl; [discriminate|].
  destruct (str_eqb k key) eqn:E.
  - apply str_eqb_true in E. intros H. injection H as H. subst. now left.
  - intros H. right. now apply IH.
Qed.

(** C8: in every directory reached from the empty one by calls of
    [add_record], [find] and [delete], each record is stored under the key
    equal to its [name.value]; so is every record that [find] returns. *)
Theorem reachable_directory_keys_match (calls : list call) :
  keys_match (run calls empty_book)
  /\ (forall key record,
        In (key, record) (run calls empty_book) ->
        name_value (name record) = key)
  /\ (forall key record,
        find_record key (run calls empty_book) = Some record ->
        name_value (name record) = key).
Proof.
  assert (H : keys_match (run calls empty_book)).
  { apply keys_match_run. constructor. }
  assert (H' : forall key record,
             In (key, record) (run calls empty_book) ->
             name_value (name record) = key).
  { intros key record Hin. unfold keys_match in H.
    rewrite Forall_forall in H. exact (H _ Hin). }
  repeat split; [assumption | assumption |].
  intros key record Hf. apply H'. now apply dict_get_In.
Qed.

Lemma reachable_directory_keys_match_witness :
  let calls := [CallAdd (Record_init (u "Alice"));
                CallAdd (Record_init (u "Bob"));
                CallFind (u "Alice");
                CallDelete (u "Alice");
                CallAdd (record_born (u "Bob") (u "05.06.1990"))] in
  find_record (u "Bob") (run calls empty_book)
  = Some (record_born (u "Bob") (u "05.06.1990"))
  /\ name_value (name (record_born (u "Bob") (u "05.06.1990"))) = u "Bob".
Proof.
  intros calls. split; [reflexivity|].
  apply (reachable_directory_keys_match calls). reflexivity.
Defined.

Lemma dict_keys_setitem (key : str) (v : ContactRecord) (d : AddressBook) :
  dict_keys (dict_setitem key v d)
  = if in_dec str_eq_dec key (dict_keys d)
    then dict_keys d else dict_keys d ++ [key].
Proof.
  induction d as [|[k w] d IH]; simpl; [reflexivity|].
  destruct (str_eqb k key) eqn:E.
  - apply str_eqb_true in E. rewrite E. simpl.
    destruct (str_eq_dec key key) as [He|Hn]; [reflexivity|contradiction].
  - apply str_eqb_false in E. simpl. rewrite IH.
    destruct (str_eq_dec k key) as [He|Hne]; [contradiction|].
    now destruct (in_dec str_eq_dec key (dict_keys d)).
Qed.

Lemma dict_keys_delitem (key : str) (d : AddressBook) :
  NoDup (dict_keys d) -> NoDup (dict_keys (dict_delitem key d)).
Proof.
  induction d as [|[k w] d IH]; simpl; intros H; [constructor|].
  inversion H as [|? ? Hk Hd]; subst.
  destruct (str_eqb k key); [assumption|]. simpl. constructor.
  - intros Hin. apply Hk. clear - Hin.
    induction d as [|[k' w'] d IHd]; simpl in *; [assumption|].
    destruct (str_eqb k' key); simpl in *; tauto.
  - now apply IH.
Qed.

(** The directories of a session are well-formed dicts. *)
Lemma distinct_keys_run (calls : list call) :
  forall self, distinct_keys self -> distinct_keys (run calls self).
Proof.
  unfold run, distinct_keys.
  induction calls as [|c calls IH]; simpl; intros self H; [assumption|].
  apply IH. destruct c as [record|nm|nm]; simpl.
  - unfold add_record. rewrite dict_keys_setitem.
    destruct (in_dec str_eq_dec _ (dict_keys self)) as [Hi|Hn];
      [assumption|].
    apply NoDup_app; [assumption | repeat constructor; intros [] |].
    intros x Hx [<-|[]]. contradiction.
  - assumption.
  - unfold delete. destruct (dict_contains nm self); [|assumption].
    now apply dict_keys_delitem.
Qed.

Lemma delete_absent (nm : str) (self : AddressBook) :
  ~ In nm (dict_keys self) -> delete nm self = self.
Proof.
  intros H. unfold delete.
  destruct (dict_contains nm self) eqn:E; [|reflexivity].
  apply dict_contains_In in E. contradiction.
Qed.

(** C10: [delete(name)] raises nothing.  For a name that is not a key it
    returns the directory as it was; for a key it takes out the entry of
    that key and nothing else: the other entries stay, in their order and
    with their records, the size goes down by one, and the name is no
    longer found. *)
Theorem delete_removes_exactly (nm : str) (self : AddressBook) :
  (~ In nm (dict_keys self) -> delete nm self = self)
  /\ (distinct_keys self -> In nm (dict_keys self) ->
      exists pre record post,
        self = pre ++ (nm, record) :: post
        /\ delete nm self = pre ++ post
        /\ List.length (delete nm self) = (List.length self - 1)%nat
        /\ find_record nm (delete nm self) = None
        /\ forall key, key <> nm ->
             find_record key (delete nm self) = find_record key self).
Proof.
  split; [apply delete_absent|]. intros Hnd Hin.
  destruct (dict_delitem_split nm self Hin) as (pre & w & post & Hs & Hpre & Hd).
  exists pre, w, post.
  assert (Hdel : delete nm self = pre ++ post).
  { unfold delete. apply dict_contains_In in Hin. now rewrite Hin. }
  assert (Hpost : ~ In nm (dict_keys post)).
  { unfold distinct_keys, dict_keys in Hnd. rewrite Hs, map_app in Hnd.
    simpl in Hnd. apply NoDup_remove_2 in Hnd. intros Hp. apply Hnd.
    apply in_or_app. now right. }
  rewrite Hdel. repeat split.
  - assumption.
  - rewrite Hs, !length_app. simpl. lia.
  - unfold find_record. apply dict_get_None. unfold dict_keys.
    rewrite map_app. intros H. apply in_app_or in H. tauto.
  - intros key Hk. unfold find_record. rewrite Hs, !dict_get_app. simpl.
    assert (E : str_eqb nm key = false) by (apply str_eqb_false; congruence).
    now rewrite E.
Qed.

Lemma delete_removes_exactly_witness :
  let alice := Record_init (u "Alice") in
  let bob := Record_init (u "Bob") in
  let carol := Record_init (u "Carol") in
  let book := add_record carol (add_record bob (add_record alice empty_book)) in
  delete (u "Dave") book = book
  /\ List.length (delete (u "Bob") book) = 2%nat
  /\ find_record (u "Bob") (delete (u "Bob") book) = None.
Proof.
  intros alice bob carol book. split.
  - apply (proj1 (delete_removes_exactly (u "Dave") book)).
    vm_compute. intros [H|[H|[H|[]]]]; discriminate.
  - destruct (proj2 (delete_removes_exactly (u "Bob") book))
      as (pre & r & post & _ & _ & Hlen & Hnone & _).
    + vm_compute. repeat constructor; simpl; intros H;
        repeat (destruct H as [H|H]; try discriminate); assumption.
    + vm_compute. right. now left.
    + split; [exact Hlen | exact Hnone].
Defined.

(** ** The birthday query *)

Section Scan.

Variables (today : datetime) (days : Z).

Lemma upcoming_from_cons (record : ContactRecord)
    (rest upcoming : list ContactRecord) :
  upcoming_from today days (record :: rest) upcoming
  = (b <- visit today days record ;;
     upcoming_from today days rest
       (if b then upcoming ++ [record] else upcoming)).
Proof.
  unfold visit. simpl. destruct (birthday record) as [b|]; [|reflexivity].
  destruct (datetime_replace_year (birthday_value b) (year today))
    as [e|bday]; [reflexivity|]. simpl.
  destruct (datetime_le today bday); [|reflexivity].
  destruct (datetime_add_days today days) as [e|limit]; [reflexivity|]. simpl.
  now destruct (datetime_le bday limit).
Qed.

Lemma selected_visit (record : ContactRecord) (b : bool) :
  visit today days record = inr b -> selected today days record = b.
Proof. unfold selected. intros ->. now destruct b. Qed.

(** A scan that returns has visited every record without an exception, and
    returns the selected records in the order of the scan. *)
Lemma upcoming_from_inr (values : list ContactRecord) :
  forall upcoming l,
    upcoming_from today days values upcoming = inr l ->
    l = upcoming ++ filter (selected today days) values
    /\ Forall (fun r => exists b, visit today days r = inr b) values.
Proof.
  induction values as [|r values IH]; intros upcoming l H.
  - simpl in H. injection H as <-. now rewrite app_nil_r.
  - rewrite upcoming_from_cons in H.
    destruct (visit today days r) as [e|b] eqn:Hv; [discriminate|].
    simpl in H. apply IH in H as [Hl Hf]. simpl.
    rewrite (selected_visit _ _ Hv). split.
    + destruct b; [now rewrite <- app_assoc in Hl | assumption].
    + constructor; [now exists b | assumption].
Qed.

Lemma upcoming_from_all_visited (values : list ContactRecord) :
  forall upcoming,
    Forall (fun r => exists b, visit today days r = inr b) values ->
    upcoming_from today days values upcoming
    = inr (upcoming ++ filter (selected today days) values).
Proof.
  induction values as [|r values IH]; intros upcoming H.
  - simpl. now rewrite app_nil_r.
  - inversion H as [|? ? [b Hv] Hf]; subst.
    rewrite upcoming_from_cons, Hv. simpl. rewrite (IH _ Hf).
    rewrite (selected_visit _ _ Hv).
    destruct b; [now rewrite <- app_assoc | reflexivity].
Qed.

(** The first exception of a scan ends it, whatever was found before and
    whatever is still to visit. *)
Lemma upcoming_from_abort (pre : list ContactRecord) (record : ContactRecord)
    (post : list ContactRecord) (e : exn) :
  forall upcoming found,
    upcoming_from today days pre upcoming = inr found ->
    visit today days record = inl e ->
    upcoming_from today days (pre ++ record :: post) upcoming = inl e.
Proof.
  induction pre as [|r pre IH]; intros upcoming found Hpre Hv.
  - simpl app. now rewrite upcoming_from_cons, Hv.
  - simpl app. rewrite upcoming_from_cons in *.
    destruct (visit today days r) as [e'|b]; [discriminate|].
    simpl in *. eapply IH; eassumption.
Qed.

Lemma upcoming_from_raises (values : list ContactRecord)
    (record : ContactRecord) (e : exn) :
  In record values ->
  visit today days record = inl e ->
  forall upcoming, exists e', upcoming_from today days values upcoming = inl e'.
Proof.
  intros Hin Hv upcoming.
  destruct (upcoming_from today days values upcoming) as [e'|l] eqn:H.
  - now exists e'.
  - apply upcoming_from_inr in H as [_ Hf]. rewrite Forall_forall in Hf.
    destruct (Hf _ Hin) as [b Hb]. congruence.
Qed.

Lemma upcoming_from_inl (values : list ContactRecord) (e : exn) :
  forall upcoming,
    upcoming_from today days values upcoming = inl e ->
    exists record, In record values /\ visit today days record = inl e.
Proof.
  induction values as [|r values IH]; intros upcoming H.
  - discriminate.
  - rewrite upcoming_from_cons in H.
    destruct (visit today days r) as [e'|b] eqn:Hv; simpl in H.
    + injection H as ->. exists r. split; [now left | assumption].
    + apply IH in H as [record [Hin H]]. exists record.
      split; [now right | assumption].
Qed.

Lemma datetime_add_days_exn (e : exn) :
  datetime_add_days today days = inl e -> e = OverflowError.
Proof.
  unfold datetime_add_days, raise, ret.
  destruct (999999999 <? Z.abs days); [congruence|].
  destruct ((0 <? toordinal today + days)
            && (toordinal today + days <=? MAXORDINAL)); [|congruence].
  destruct (ord2ymd (toordinal today + days)) as [[y m] d]. discriminate.
Qed.

Lemma visit_ValueError (record : ContactRecord) (msg : string) :
  visit today days record = inl (ValueError msg) <->
  exists b, birthday record = Some b
    /\ datetime_replace_year (birthday_value b) (year today)
       = inl (ValueError msg).
Proof.
  unfold visit. split.
  - destruct (birthday record) as [b|]; [|discriminate].
    destruct (datetime_replace_year (birthday_value b) (year today))
      as [e|bday] eqn:Hr; simpl.
    + intros H. exists b. split; congruence.
    + destruct (datetime_le today bday); [|discriminate].
      destruct (datetime_add_days today days) as [e|limit] eqn:Ha;
        [|discriminate].
      apply datetime_add_days_exn in Ha. subst e. discriminate.
  - intros (b & -> & ->). reflexivity.
Qed.

Lemma visit_OverflowError (record : ContactRecord) :
  visit today days record = inl OverflowError ->
  datetime_add_days today days = inl OverflowError.
Proof.
  unfold visit. destruct (birthday record) as [b|]; [|discriminate].
  unfold datetime_replace_year, check_date_fields, raise, ret.
  destruct (negb _); [discriminate|].
  destruct (negb _); [discriminate|].
  destruct (negb _); [discriminate|]. simpl.
  destruct (datetime_le today _); [|discriminate].
  destruct (datetime_add_days today days) as [[msg|]|limit];
    simpl; intros H; try discriminate. reflexivity.
Qed.

Lemma selected_spec (record : ContactRecord) :
  selected today days record = true <->
  exists b bday limit,
    birthday record = Some b
    /\ datetime_replace_year (birthday_value b) (year today) = inr bday
    /\ datetime_add_days today days = inr limit
    /\ datetime_le today bday = true
    /\ datetime_le bday limit = true.
Proof.
  unfold selected, visit. split.
  - destruct (birthday record) as [b|]; [|discriminate].
    destruct (datetime_replace_year (birthday_value b) (year today))
      as [e|bday] eqn:Hr; [discriminate|]. simpl.
    destruct (datetime_le today bday) eqn:Hle; [|discriminate].
    destruct (datetime_add_days today days) as [e|limit] eqn:Ha;
      [discriminate|]. simpl.
    destruct (datetime_le bday limit) eqn:Hle2; [|discriminate].
    intros _. exists b, bday, limit. auto.
  - intros (b & bday & limit & -> & -> & Ha & Hle & Hle2). simpl.
    rewrite Hle, Ha. simpl. now rewrite Hle2.
Qed.

End Scan.

Lemma cmp_fields_opp (a : list Z) :
  forall b, cmp_fields b a = CompOpp (cmp_fields a b).
Proof.
  induction a as [|x a IH]; intros [|y b]; simpl; try reflexivity.
  rewrite (Z.compare_antisym x y).
  destruct (x ?= y); simpl; [apply IH | reflexivity | reflexivity].
Qed.

Lemma datetime_lt_not_le (a b : datetime) :
  datetime_lt a b = true -> datetime_le b a = false.
Proof.
  unfold datetime_lt, datetime_le, datetime_cmp.
  rewrite (cmp_fields_opp (getstate a) (getstate b)).
  now destruct (cmp_fields (getstate a) (getstate b)).
Qed.




Lemma upcoming_returns_selected (self : AddressBook) (today : datetime)
    (days : Z) (l : list ContactRecord) :
  get_upcoming_birthdays self today days = inr l ->
  l = filter (selected today days) (dict_values self)
  /\ forall record,
       In record l <->
       In record (dict_values self)
       /\ exists b bday limit,
            birthday record = Some b
            /\ datetime_replace_year (birthday_value b) (year today)
               = inr bday
            /\ datetime_add_days today days = inr limit
            /\ datetime_le today bday = true
            /\ datetime_le bday limit = true.
Proof.
  intros H. unfold get_upcoming_birthdays in H.
  apply upcoming_from_inr in H as [Hl _]. simpl in Hl. split; [assumption|].
  intros record. rewrite Hl, filter_In, selected_spec. reflexivity.
Qed.




(** C2: a record whose birthday, projected onto the year of [today], lies
    before [today] is not among the records the query returns, however
    close the birthday of the next year is: the projection is never moved
    to the following year. *)
Theorem past_birthday_not_returned (self : AddressBook) (today : datetime)
    (days : Z) (record : ContactRecord) (b : Birthday) (bday : datetime) :
  birthday record = Some b ->
  datetime_replace_year (birthday_value b) (year today) = inr bday ->
  datetime_lt bday today = true ->
  forall l, get_upcoming_birthdays self today days = inr l -> ~ In record l.
Proof.
  intros Hb Hr Hlt l H Hin.
  apply (upcoming_returns_selected self today days l H) in Hin
    as (_ & b' & bday' & limit & Hb' & Hr' & _ & Hle & _).
  rewrite Hb in Hb'. injection Hb' as <-.
  rewrite Hr in Hr'. injection Hr' as <-.
  apply datetime_lt_not_le in Hlt. congruence.
Qed.

Lemma past_birthday_not_returned_witness :
  let today := mkdatetime 2023 12 30 10 0 0 0 in
  let alice := record_born (u "Alice") (u "02.01.1990") in
  let book := add_record alice empty_book in
  (* the birthday of the next year is inside the window *)
  datetime_add_days today 7 = inr (mkdatetime 2024 1 6 10 0 0 0)
  /\ datetime_le today (mkdatetime 2024 1 2 0 0 0 0) = true
  /\ datetime_le (mkdatetime 2024 1 2 0 0 0 0) (mkdatetime 2024 1 6 10 0 0 0)
     = true
  (* and the record is not returned *)
  /\ get_upcoming_birthdays book today 7 = inr []
  /\ ~ In alice [].
Proof.
  intros today alice book. repeat (split; [reflexivity|]).
  apply (past_birthday_not_returned book today 7 alice
           (mkBirthday (mkdatetime 1990 1 2 0 0 0 0))
           (mkdatetime 2023 1 2 0 0 0 0));
    reflexivity.
Defined.

Lemma feb29_replace_raises (dt : datetime) (y : Z) :
  month dt = 2 -> day dt = 29 -> is_leap y = false ->
  exists msg, datetime_replace_year dt y = inl (ValueError msg).
Proof.
  intros Hm Hd Hl. unfold datetime_replace_year, check_date_fields.
  rewrite Hm, Hd. unfold days_in_month. rewrite Hl. simpl.
  destruct ((MINYEAR <=? y) && (y <=? MAXYEAR)); simpl; eauto.
Qed.

(** C3: when a record of the directory has a birthday on 29 February and
    the year of [today] is not a leap year, replacing the year of that
    birthday raises [ValueError], and the query returns no result: it
    raises.  Whenever [today + days] is a date, the exception the query
    raises is the [ValueError] that the year projection of a record
    raised. *)
Theorem feb29_in_common_year_raises (self : AddressBook) (today : datetime)
    (days : Z) (record : ContactRecord) (b : Birthday) :
  In record (dict_values self) ->
  birthday record = Some b ->
  month (birthday_value b) = 2 ->
  day (birthday_value b) = 29 ->
  is_leap (year today) = false ->
  (exists msg,
     datetime_replace_year (birthday_value b) (year today)
     = inl (ValueError msg))
  /\ (exists e, get_upcoming_birthdays self today days = inl e)
  /\ (forall limit,
        datetime_add_days today days = inr limit ->
        exists record' b' msg,
          In record' (dict_values self)
          /\ birthday record' = Some b'
          /\ datetime_replace_year (birthday_value b') (year today)
             = inl (ValueError msg)
          /\ get_upcoming_birthdays self today days = inl (ValueError msg)).
Proof.
  intros Hin Hb Hm Hd Hl.
  destruct (feb29_replace_raises _ _ Hm Hd Hl) as [msg Hr].
  assert (Hv : visit today days record = inl (ValueError msg)).
  { apply visit_ValueError. now exists b. }
  destruct (upcoming_from_raises today days _ _ _ Hin Hv []) as [e He].
  split; [now exists msg|]. split; [now exists e|].
  intros limit Ha. unfold get_upcoming_birthdays. rewrite He.
  destruct (upcoming_from_inl _ _ _ _ _ He) as (record' & Hin' & Hv').
  destruct e as [msg'|].
  - apply visit_ValueError in Hv' as (b' & Hb' & Hr').
    exists record', b', msg'. auto.
  - apply visit_OverflowError in Hv'. congruence.
Qed.

Lemma feb29_in_common_year_raises_witness :
  let today := mkdatetime 2023 6 1 9 0 0 0 in
  let alice := record_born (u "Alice") (u "05.06.1990") in
  let bob := record_born (u "Bob") (u "29.02.2000") in
  let book := add_record bob (add_record alice empty_book) in
  (exists msg,
     datetime_replace_year (mkdatetime 2000 2 29 0 0 0 0) 2023
     = inl (ValueError msg))
  /\ get_upcoming_birthdays book today 7
     = inl (ValueError "day is out of range for month").
Proof.
  intros today alice bob book.
  destruct (feb29_in_common_year_raises book today 7 bob
              (mkBirthday (mkdatetime 2000 2 29 0 0 0 0)))
    as (H1 & _ & _); try reflexivity.
  - right. now left.
  - split; [exact H1 | reflexivity].
Defined.

(** C9: when the year projection of a record fails, the query returns no
    sequence at all, whatever stands before and after that record in the
    directory; and when the scan gets to that record, having found the
    records [found] before it, the query raises the exception of the
    projection: neither [found] nor any later record is returned. *)
Theorem failed_projection_aborts_scan (pre post : AddressBook) (key : str)
    (record : ContactRecord) (b : Birthday) (e : exn) (today : datetime)
    (days : Z) :
  birthday record = Some b ->
  datetime_replace_year (birthday_value b) (year today) = inl e ->
  (exists e',
     get_upcoming_birthdays (pre ++ (key, record) :: post) today days = inl e')
  /\ (forall found,
        get_upcoming_birthdays pre today days = inr found ->
        get_upcoming_birthdays (pre ++ (key, record) :: post) today days
        = inl e).
Proof.
  intros Hb Hr.
  assert (Hv : visit today days record = inl e).
  { unfold visit. now rewrite Hb, Hr. }
  unfold get_upcoming_birthdays, dict_values. rewrite map_app. simpl map.
  split.
  - apply (upcoming_from_raises today days _ record e); [|assumption].
    apply in_or_app. right. now left.
  - intros found Hpre. now apply (upcoming_from_abort _ _ _ _ _ _ [] found).
Qed.

Lemma failed_projection_aborts_scan_witness :
  let today := mkdatetime 2023 6 1 9 0 0 0 in
  let alice := record_born (u "Alice") (u "05.06.1990") in
  let bob := record_born (u "Bob") (u "29.02.2000") in
  let carol := record_born (u "Carol") (u "06.06.1991") in
  get_upcoming_birthdays [(u "Alice", alice)] today 7 = inr [alice]
  /\ get_upcoming_birthdays
       ([(u "Alice", alice)] ++ (u "Bob", bob) :: [(u "Carol", carol)])
       today 7
     = inl (ValueError "day is out of range for month").
Proof.
  intros today alice bob carol. split; [reflexivity|].
  apply (proj2 (failed_projection_aborts_scan
                  [(u "Alice", alice)] [(u "Carol", carol)] (u "Bob") bob
                  (mkBirthday (mkdatetime 2000 2 29 0 0 0 0))
                  (ValueError "day is out of range for month") today 7
                  eq_refl eq_refl) [alice]).
  reflexivity.
Defined.

(** ** Birthdays: reading and rendering *)

Ltac enum_digit c :=
  match goal with
  | H : (48 <= c <= 57)%N |- _ =>
      let Hc := fresh in
      assert (Hc : (c = 48 \/ c = 49 \/ c = 50 \/ c = 51 \/ c = 52 \/ c = 53
                    \/ c = 54 \/ c = 55 \/ c = 56 \/ c = 57)%N) by lia;
      clear H;
      destruct Hc as [->|[->|[->|[->|[->|[->|[->|[->|[->| ->]]]]]]]]]
  end.

Lemma re_d_two_digits {A} (d1 d2 : codepoint) (rest : str)
    (k : str -> str -> option A) :
  is_ascii_digit d1 = true -> is_ascii_digit d2 = true ->
  k [d1] (d2 :: rest) = None ->
  re_d (d1 :: d2 :: rest) k
  = if (1 <=? 10 * digit d1 + digit d2) && (10 * digit d1 + digit d2 <=? 31)
    then k [d1; d2] rest else None.
Proof.
  intros H1 H2 Hk. apply ascii_digit_range in H1, H2.
  enum_digit d1; enum_digit d2;
    unfold re_d, two, one, orelse; simpl; rewrite ?Hk;
    try reflexivity;
    match goal with
    | |- match ?x with _ => _ end = _ => destruct x
    end;
    reflexivity.
Qed.

Lemma re_m_two_digits {A} (d1 d2 : codepoint) (rest : str)
    (k : str -> str -> option A) :
  is_ascii_digit d1 = true -> is_ascii_digit d2 = true ->
  k [d1] (d2 :: rest) = None ->
  re_m (d1 :: d2 :: rest) k
  = if (1 <=? 10 * digit d1 + digit d2) && (10 * digit d1 + digit d2 <=? 12)
    then k [d1; d2] rest else None.
Proof.
  intros H1 H2 Hk. apply ascii_digit_range in H1, H2.
  enum_digit d1; enum_digit d2;
    unfold re_m, two, one, orelse; simpl; rewrite ?Hk;
    try reflexivity;
    match goal with
    | |- match ?x with _ => _ end = _ => destruct x
    end;
    reflexivity.
Qed.

Lemma digit_range (c : codepoint) :
  is_ascii_digit c = true -> 0 <= digit c <= 9.
Proof. intros H. apply ascii_digit_range in H. unfold digit. lia. Qed.

Lemma digit_chr_digit (c : codepoint) :
  is_ascii_digit c = true -> digit_chr (digit c) = c.
Proof.
  intros H. apply ascii_digit_range in H. unfold digit_chr, digit.
  replace (48 + (Z.of_N c - 48)) with (Z.of_N c) by lia. apply N2Z.id.
Qed.

Lemma digit_chr_ascii (n : Z) :
  0 <= n <= 9 -> is_ascii_digit (digit_chr n) = true.
Proof.
  intros H. apply ascii_digit_range. unfold digit_chr. lia.
Qed.

Lemma ascii_digit_not_chr (a : ascii) (c : codepoint) :
  is_ascii_digit c = true -> (cp a < 48)%N -> is_chr a c = false.
Proof.
  intros H Ha. apply ascii_digit_range in H. unfold is_chr.
  apply N.eqb_neq. lia.
Qed.

Lemma int_digits_ascii (s : str) :
  Forall (fun c => is_ascii_digit c = true) s ->
  forall acc,
    int_digits acc s = inr (fold_left (fun a c => 10 * a + digit c) s acc).
Proof.
  induction 1 as [|c s Hc Hs IH]; intros acc; simpl; [reflexivity|].
  rewrite (ascii_digit_value c Hc), IH. unfold digit.
  apply ascii_digit_range in Hc. rewrite N2Z.inj_sub by lia. reflexivity.
Qed.

Lemma int_ascii (c : codepoint) (s : str) :
  Forall (fun c => is_ascii_digit c = true) (c :: s) ->
  int (c :: s) = inr (fold_left (fun a c => 10 * a + digit c) (c :: s) 0).
Proof.
  intros H. unfold int. simpl lstrip.
  rewrite (ascii_digit_not_chr " " c); [|now inversion H|reflexivity].
  now apply int_digits_ascii.
Qed.

Lemma two_digits_div (a b : Z) :
  0 <= b <= 9 -> (10 * a + b) / 10 = a /\ (10 * a + b) mod 10 = b.
Proof.
  intros H. split.
  - symmetry. apply (Z.div_unique _ 10 a b); lia.
  - symmetry. apply (Z.mod_unique _ 10 a b); lia.
Qed.

Lemma pad2_digits (c1 c2 : codepoint) :
  is_ascii_digit c1 = true -> is_ascii_digit c2 = true ->
  pad2 (10 * digit c1 + digit c2) = [c1; c2].
Proof.
  intros H1 H2. unfold pad2.
  destruct (two_digits_div (digit c1) (digit c2) (digit_range _ H2)) as [-> ->].
  now rewrite !digit_chr_digit.
Qed.

Lemma pad4_digits (c1 c2 c3 c4 : codepoint) :
  is_ascii_digit c1 = true -> is_ascii_digit c2 = true ->
  is_ascii_digit c3 = true -> is_ascii_digit c4 = true ->
  pad4 (1000 * digit c1 + 100 * digit c2 + 10 * digit c3 + digit c4)
  = [c1; c2; c3; c4].
Proof.
  intros H1 H2 H3 H4. unfold pad4.
  pose proof (digit_range _ H1) as R1. pose proof (digit_range _ H2) as R2.
  pose proof (digit_range _ H3) as R3. pose proof (digit_range _ H4) as R4.
  set (n := 1000 * digit c1 + 100 * digit c2 + 10 * digit c3 + digit c4).
  assert (E1 : n / 1000 = digit c1).
  { symmetry.
    apply (Z.div_unique _ 1000 _ (100 * digit c2 + 10 * digit c3 + digit c4));
      lia. }
  assert (E2 : n / 100 = 10 * digit c1 + digit c2).
  { symmetry. apply (Z.div_unique _ 100 _ (10 * digit c3 + digit c4)); lia. }
  assert (E3 : n / 10 = 10 * (10 * digit c1 + digit c2) + digit c3).
  { symmetry. apply (Z.div_unique _ 10 _ (digit c4)); lia. }
  assert (E4 : n = 10 * (10 * (10 * digit c1 + digit c2) + digit c3) + digit c4)
    by lia.
  rewrite E1, E2, E3. rewrite E4 at 1.
  rewrite (proj2 (two_digits_div _ _ R2)), (proj2 (two_digits_div _ _ R3)),
    (proj2 (two_digits_div _ _ R4)).
  now rewrite !digit_chr_digit.
Qed.

Lemma DAYS_IN_MONTH_le (m : Z) : DAYS_IN_MONTH m <= 31.
Proof.
  destruct m as [|p|p]; simpl; try lia.
  do 4 (try destruct p as [p|p|]; simpl; try lia).
Qed.

Lemma days_in_month_le (y m : Z) : days_in_month y m <= 31.
Proof.
  unfold days_in_month. destruct ((m =? 2) && is_leap y); [lia|].
  apply DAYS_IN_MONTH_le.
Qed.

Lemma check_date_fields_inv (y m d : Z) :
  check_date_fields y m d = inr tt ->
  1 <= y <= 9999 /\ 1 <= m <= 12 /\ 1 <= d <= 31.
Proof.
  unfold check_date_fields, raise, ret, MINYEAR, MAXYEAR.
  destruct ((1 <=? y) && (y <=? 9999)) eqn:Ey; [|discriminate].
  destruct ((1 <=? m) && (m <=? 12)) eqn:Em; [|discriminate].
  destruct ((1 <=? d) && (d <=? days_in_month y m)) eqn:Ed; [|discriminate].
  intros _. pose proof (days_in_month_le y m). lia.
Qed.

Lemma check_date_fields_cases (y m d : Z) :
  check_date_fields y m d = inr tt
  \/ exists msg, check_date_fields y m d = inl (ValueError msg).
Proof.
  unfold check_date_fields, raise, ret.
  repeat (destruct (negb _); [right; eauto|]). now left.
Qed.

Lemma canonical_inv (s : str) :
  canonical s = true ->
  exists d1 d2 m1 m2 y1 y2 y3 y4,
    s = [d1; d2; cp "."; m1; m2; cp "."; y1; y2; y3; y4]
    /\ Forall (fun c => is_ascii_digit c = true)
         [d1; d2; m1; m2; y1; y2; y3; y4].
Proof.
  unfold canonical.
  do 10 (destruct s as [|? s]; [discriminate|]).
  destruct s; [|discriminate].
  rewrite !andb_true_iff. unfold is_chr. rewrite !N.eqb_eq.
  intros [[[[[[[[[? ?] <-] ?] ?] <-] ?] ?] ?] ?].
  do 8 eexists. split; [reflexivity|]. repeat constructor; assumption.
Qed.

Lemma strptime_canonical (d1 d2 m1 m2 y1 y2 y3 y4 : codepoint) :
  Forall (fun c => is_ascii_digit c = true) [d1; d2; m1; m2; y1; y2; y3; y4] ->
  let text := [d1; d2; cp "."; m1; m2; cp "."; y1; y2; y3; y4] in
  let '(y, m, d) := fields_of text in
  strptime_dmY text
  = if (1 <=? d) && (d <=? 31) && ((1 <=? m) && (m <=? 12))
    then datetime_new y m d
    else inl (ValueError msg_no_match).
Proof.
  intros H.
  inversion H as [|? ? Hd1 H1]; subst. inversion H1 as [|? ? Hd2 H2]; subst.
  inversion H2 as [|? ? Hm1 H3]; subst. inversion H3 as [|? ? Hm2 H4]; subst.
  inversion H4 as [|? ? Hy1 H5]; subst. inversion H5 as [|? ? Hy2 H6]; subst.
  inversion H6 as [|? ? Hy3 H7]; subst. inversion H7 as [|? ? Hy4 _]; subst.
  cbv zeta. unfold fields_of, strptime_dmY, format_regex_match.
  rewrite (re_d_two_digits d1 d2 _ _ Hd1 Hd2);
    [|simpl; now rewrite (ascii_digit_not_chr "." d2 Hd2)].
  destruct ((1 <=? 10 * digit d1 + digit d2)
            && (10 * digit d1 + digit d2 <=? 31)); [|reflexivity].
  cbn [re_dot]. change (is_chr "." (cp ".")) with true. cbv iota.
  rewrite (re_m_two_digits m1 m2 _ _ Hm1 Hm2);
    [|simpl; now rewrite (ascii_digit_not_chr "." m2 Hm2)].
  destruct ((1 <=? 10 * digit m1 + digit m2)
            && (10 * digit m1 + digit m2 <=? 12)); [|reflexivity].
  cbn [re_dot andb]. change (is_chr "." (cp ".")) with true. cbv iota.
  unfold re_Y.
  rewrite !ascii_digit_is_decimal by assumption. cbn [andb].
  rewrite !int_ascii by (repeat constructor; assumption).
  cbn [bind fold_left].
  replace (10 * (10 * (10 * (10 * 0 + digit y1) + digit y2) + digit y3) + digit y4)
    with (1000 * digit y1 + 100 * digit y2 + 10 * digit y3 + digit y4) by lia.
  replace (10 * (10 * 0 + digit m1) + digit m2) with (10 * digit m1 + digit m2)
    by lia.
  replace (10 * (10 * 0 + digit d1) + digit d2) with (10 * digit d1 + digit d2)
    by lia.
  reflexivity.
Qed.

Lemma int_digits_exn (s : str) :
  forall acc e, int_digits acc s = inl e -> exists msg, e = ValueError msg.
Proof.
  induction s as [|c s IH]; intros acc e; simpl; [discriminate|].
  destruct (decimal_value c); [apply IH|].
  intros H. injection H as <-. eauto.
Qed.

Lemma int_exn (s : str) (e : exn) :
  int s = inl e -> exists msg, e = ValueError msg.
Proof.
  unfold int. destruct (lstrip s).
  - intros H. injection H as <-. eauto.
  - apply int_digits_exn.
Qed.

Lemma datetime_new_cases (y m d : Z) :
  (check_date_fields y m d = inr tt
   /\ datetime_new y m d = inr (mkdatetime y m d 0 0 0 0))
  \/ exists msg, datetime_new y m d = inl (ValueError msg).
Proof.
  unfold datetime_new.
  destruct (check_date_fields_cases y m d) as [H|[msg H]]; rewrite H.
  - now left.
  - right. now exists msg.
Qed.

(** What [strptime] returns is a checked date at midnight, and what it
    raises is a [ValueError]. *)
Lemma strptime_dmY_cases (text : str) :
  (exists y m d,
     check_date_fields y m d = inr tt
     /\ strptime_dmY text = inr (mkdatetime y m d 0 0 0 0))
  \/ exists msg, strptime_dmY text = inl (ValueError msg).
Proof.
  unfold strptime_dmY.
  destruct (format_regex_match text) as [[[[d m] Y] rest]|]; [|right; eauto].
  destruct rest; [|right; eauto].
  destruct (int Y) as [e|y] eqn:EY.
  { apply int_exn in EY as [msg ->]. right. now exists msg. }
  destruct (int m) as [e|mo] eqn:Em.
  { apply int_exn in Em as [msg ->]. right. now exists msg. }
  destruct (int d) as [e|da] eqn:Ed.
  { apply int_exn in Ed as [msg ->]. right. now exists msg. }
  simpl. destruct (datetime_new_cases y mo da) as [[Hc H]|[msg H]]; rewrite H.
  - left. now exists y, mo, da.
  - right. eauto.
Qed.

Lemma Birthday_init_cases (text : str) :
  (exists y m d,
     check_date_fields y m d = inr tt
     /\ Birthday_init text = inr (mkBirthday (mkdatetime y m d 0 0 0 0)))
  \/ Birthday_init text = inl (ValueError msg_birthday).
Proof.
  unfold Birthday_init.
  destruct (strptime_dmY_cases text) as [(y & m & d & Hc & H)|[msg H]];
    rewrite H.
  - left. now exists y, m, d.
  - now right.
Qed.

Lemma Birthday_init_canonical (text : str) :
  canonical text = true ->
  let '(y, m, d) := fields_of text in
  Birthday_init text
  = match check_date_fields y m d with
    | inr _ => inr (mkBirthday (mkdatetime y m d 0 0 0 0))
    | inl _ => inl (ValueError msg_birthday)
    end.
Proof.
  intros H.
  destruct (canonical_inv text H)
    as (d1 & d2 & m1 & m2 & y1 & y2 & y3 & y4 & -> & Hf).
  pose proof (strptime_canonical d1 d2 m1 m2 y1 y2 y3 y4 Hf) as Hs.
  cbv zeta in Hs. unfold Birthday_init.
  destruct (fields_of _) as [[y m] d]. rewrite Hs. clear Hs.
  destruct ((1 <=? d) && (d <=? 31) && ((1 <=? m) && (m <=? 12))) eqn:E.
  - destruct (datetime_new_cases y m d) as [[Hc Hn]|[msg Hn]]; rewrite Hn.
    + now rewrite Hc.
    + unfold datetime_new in Hn.
      destruct (check_date_fields y m d) as [e|[]]; [reflexivity|discriminate].
  - destruct (check_date_fields y m d) as [e|[]] eqn:Hc; [reflexivity|].
    apply check_date_fields_inv in Hc. lia.
Qed.

Lemma format_regex_match_short_year (d1 d2 m1 m2 : codepoint) (ys : str) :
  Forall (fun c => is_ascii_digit c = true) [d1; d2; m1; m2] ->
  (List.length ys < 4)%nat ->
  format_regex_match (d1 :: d2 :: cp "." :: m1 :: m2 :: cp "." :: ys) = None.
Proof.
  intros H Hlen.
  inversion H as [|? ? Hd1 H1]; subst. inversion H1 as [|? ? Hd2 H2]; subst.
  inversion H2 as [|? ? Hm1 H3]; subst. inversion H3 as [|? ? Hm2 _]; subst.
  unfold format_regex_match.
  rewrite (re_d_two_digits d1 d2 _ _ Hd1 Hd2);
    [|simpl; now rewrite (ascii_digit_not_chr "." d2 Hd2)].
  destruct ((1 <=? 10 * digit d1 + digit d2)
            && (10 * digit d1 + digit d2 <=? 31)); [|reflexivity].
  cbn [re_dot]. change (is_chr "." (cp ".")) with true. cbv iota.
  rewrite (re_m_two_digits m1 m2 _ _ Hm1 Hm2);
    [|simpl; now rewrite (ascii_digit_not_chr "." m2 Hm2)].
  destruct ((1 <=? 10 * digit m1 + digit m2)
            && (10 * digit m1 + digit m2 <=? 12)); [|reflexivity].
  cbn [re_dot]. change (is_chr "." (cp ".")) with true. cbv iota.
  destruct ys as [|? [|? [|? [|? ?]]]]; simpl in Hlen; try reflexivity. lia.
Qed.

Lemma decimal_short (n : Z) : n < 1000 -> (List.length (decimal n) < 4)%nat.
Proof.
  intros H. unfold decimal.
  destruct (n <? 10); [simpl; lia|].
  destruct (n <? 100); [simpl; lia|].
  destruct (n <? 1000) eqn:E; [simpl; lia|]. apply Z.ltb_ge in E. lia.
Qed.

Lemma decimal_pad4 (n : Z) : 1000 <= n -> decimal n = pad4 n.
Proof.
  intros H. unfold decimal.
  destruct (n <? 10) eqn:E1; [apply Z.ltb_lt in E1; lia|].
  destruct (n <? 100) eqn:E2; [apply Z.ltb_lt in E2; lia|].
  destruct (n <? 1000) eqn:E3; [apply Z.ltb_lt in E3; lia|]. reflexivity.
Qed.

Lemma strftime_padded (year_padded : bool) (y m d : Z) :
  year_padded = true \/ 1000 <= y ->
  strftime_dmY year_padded (mkdatetime y m d 0 0 0 0)
  = pad2 d ++ u "." ++ pad2 m ++ u "." ++ pad4 y.
Proof.
  intros Hp. unfold strftime_dmY. cbn [year month day].
  destruct year_padded; [reflexivity|]. rewrite decimal_pad4; [reflexivity|].
  destruct Hp; [discriminate|assumption].
Qed.

Lemma strftime_canonical (year_padded : bool) (y m d : Z) :
  1 <= y <= 9999 -> 1 <= m <= 12 -> 1 <= d <= 31 ->
  year_padded = true \/ 1000 <= y ->
  canonical (strftime_dmY year_padded (mkdatetime y m d 0 0 0 0)) = true.
Proof.
  intros Hy Hm Hd Hp. rewrite strftime_padded by assumption.
  unfold pad2, pad4. simpl.
  rewrite !digit_chr_ascii by (Z.div_mod_to_equations; lia). reflexivity.
Qed.

Lemma strftime_short_year_rejected (y m d : Z) :
  1 <= y < 1000 -> 1 <= m <= 12 -> 1 <= d <= 31 ->
  Birthday_init (strftime_dmY false (mkdatetime y m d 0 0 0 0))
  = inl (ValueError msg_birthday).
Proof.
  intros Hy Hm Hd. unfold strftime_dmY, Birthday_init, strptime_dmY.
  cbn [year month day]. unfold pad2. simpl app.
  change (N_of_ascii ".") with (cp ".").
  rewrite format_regex_match_short_year; [reflexivity| |].
  - repeat constructor; apply digit_chr_ascii; Z.div_mod_to_equations; lia.
  - apply decimal_short. simpl. lia.
Qed.

Lemma orelse_Some {A} (x y : option A) (a : A) :
  orelse x y = Some a -> x = Some a \/ y = Some a.
Proof. destruct x; simpl; auto. Qed.

Lemma one_Some {A} (p : codepoint -> bool) (s : str)
    (k : str -> str -> option A) (a : A) :
  one p s k = Some a ->
  exists c rest, s = c :: rest /\ p c = true /\ k [c] rest = Some a.
Proof.
  unfold one. destruct s as [|c rest]; [discriminate|].
  destruct (p c) eqn:E; [|discriminate]. intros H. now exists c, rest.
Qed.

Lemma two_Some {A} (p1 p2 : codepoint -> bool) (s : str)
    (k : str -> str -> option A) (a : A) :
  two p1 p2 s k = Some a ->
  exists c1 c2 rest,
    s = c1 :: c2 :: rest /\ p1 c1 = true /\ p2 c2 = true
    /\ k [c1; c2] rest = Some a.
Proof.
  unfold two. destruct s as [|c1 [|c2 rest]]; try discriminate.
  destruct (p1 c1) eqn:E1; [|discriminate].
  destruct (p2 c2) eqn:E2; [|discriminate]. intros H. now exists c1, c2, rest.
Qed.

Ltac group_found H :=
  first
    [ apply two_Some in H as (?c1 & ?c2 & ?rest & -> & ?H1 & ?H2 & ?Hk);
      eexists [_; _], _; split; [reflexivity|]; split; [|eassumption]
    | apply one_Some in H as (?c & ?rest & -> & ?H1 & ?Hk);
      eexists [_], _; split; [reflexivity|]; split; [|eassumption] ].

(** A group matches a text of its shape at the start of the text, and hands
    it to the rest of the pattern. *)
Lemma re_d_sound {A} (s : str) (k : str -> str -> option A) (a : A) :
  re_d s k = Some a ->
  exists d rest, s = d ++ rest /\ is_day_text d = true /\ k d rest = Some a.
Proof.
  unfold re_d. intros H.
  repeat (apply orelse_Some in H as [H|H]); group_found H;
    cbn [is_day_text]; rewrite ?H1, ?H2; cbn [andb orb];
    rewrite ?orb_true_r; reflexivity.
Qed.

Lemma re_m_sound {A} (s : str) (k : str -> str -> option A) (a : A) :
  re_m s k = Some a ->
  exists m rest, s = m ++ rest /\ is_month_text m = true /\ k m rest = Some a.
Proof.
  unfold re_m. intros H.
  repeat (apply orelse_Some in H as [H|H]); group_found H;
    cbn [is_month_text]; rewrite ?H1, ?H2; cbn [andb orb];
    rewrite ?orb_true_r; reflexivity.
Qed.

Lemma re_Y_sound {A} (s : str) (k : str -> str -> option A) (a : A) :
  re_Y s k = Some a ->
  exists Y rest, s = Y ++ rest /\ is_year_text Y = true /\ k Y rest = Some a.
Proof.
  unfold re_Y. destruct s as [|c1 [|c2 [|c3 [|c4 rest]]]]; try discriminate.
  destruct (is_decimal c1 && is_decimal c2 && is_decimal c3 && is_decimal c4)
    eqn:E; [|discriminate].
  intros H. exists [c1; c2; c3; c4], rest. auto.
Qed.

Lemma re_dot_sound {A} (s : str) (k : str -> option A) (a : A) :
  re_dot s k = Some a -> exists rest, s = cp "." :: rest /\ k rest = Some a.
Proof.
  unfold re_dot. destruct s as [|c rest]; [discriminate|].
  unfold is_chr. destruct (cp "." =? c)%N eqn:E; [|discriminate].
  apply N.eqb_eq in E as <-. intros H. now exists rest.
Qed.

Lemma chr_not_in_range (a : ascii) (lo hi c : codepoint) :
  is_chr a c = true -> in_range lo hi (cp a) = false -> in_range lo hi c = false.
Proof. unfold is_chr. intros H. apply N.eqb_eq in H as <-. auto. Qed.

(** The group is followed by a dot, which no alternative of the group can
    take for a digit: the alternative that matches is the text's own. *)
Lemma re_d_complete {A} (d r : str) (k : str -> str -> option A) (a : A) :
  is_day_text d = true ->
  k d (cp "." :: r) = Some a ->
  re_d (d ++ cp "." :: r) k = Some a.
Proof.
  intros Hd Hk. destruct d as [|c1 [|c2 [|? ?]]]; try discriminate.
  - cbn [is_day_text] in Hd. unfold re_d, two, one, orelse. cbn [app].
    change (in_range (cp "0") (cp "1") (cp ".")) with false.
    change (is_decimal (cp ".")) with false.
    change (in_range (cp "1") (cp "9") (cp ".")) with false.
    rewrite !andb_false_r, Hd, Hk. reflexivity.
  - cbn [is_day_text] in Hd. unfold re_d, two, one, orelse. cbn [app].
    destruct (is_chr "3" c1 && in_range (cp "0") (cp "1") c2);
      [now rewrite Hk|].
    destruct (in_range (cp "1") (cp "2") c1 && is_decimal c2);
      [now rewrite Hk|].
    destruct (is_chr "0" c1 && in_range (cp "1") (cp "9") c2);
      [now rewrite Hk|].
    cbn [orb] in Hd. rewrite Hd. apply andb_true_iff in Hd as [Hb _].
    rewrite (chr_not_in_range " " (cp "1") (cp "9") c1 Hb eq_refl).
    now rewrite Hk.
Qed.

Lemma re_m_complete {A} (m r : str) (k : str -> str -> option A) (a : A) :
  is_month_text m = true ->
  k m (cp "." :: r) = Some a ->
  re_m (m ++ cp "." :: r) k = Some a.
Proof.
  intros Hm Hk. destruct m as [|c1 [|c2 [|? ?]]]; try discriminate.
  - cbn [is_month_text] in Hm. unfold re_m, two, one, orelse. cbn [app].
    change (in_range (cp "0") (cp "2") (cp ".")) with false.
    change (in_range (cp "1") (cp "9") (cp ".")) with false.
    rewrite !andb_false_r, Hm, Hk. reflexivity.
  - cbn [is_month_text] in Hm. unfold re_m, two, one, orelse. cbn [app].
    destruct (is_chr "1" c1 && in_range (cp "0") (cp "2") c2);
      [now rewrite Hk|].
    cbn [orb] in Hm. rewrite Hm. now rewrite Hk.
Qed.

Lemma format_regex_match_sound (text d m Y rest : str) :
  format_regex_match text = Some (d, m, Y, rest) ->
  text = d ++ cp "." :: m ++ cp "." :: Y ++ rest
  /\ is_day_text d = true /\ is_month_text m = true /\ is_year_text Y = true.
Proof.
  unfold format_regex_match. intros H.
  apply re_d_sound in H as (d' & s1 & -> & Hd & H).
  apply re_dot_sound in H as (s2 & -> & H).
  apply re_m_sound in H as (m' & s3 & -> & Hm & H).
  apply re_dot_sound in H as (s4 & -> & H).
  apply re_Y_sound in H as (Y' & s5 & -> & HY & H).
  injection H as -> -> -> ->. auto.
Qed.

Lemma format_regex_match_complete (d m Y : str) :
  is_day_text d = true -> is_month_text m = true -> is_year_text Y = true ->
  format_regex_match (d ++ cp "." :: m ++ cp "." :: Y) = Some (d, m, Y, []).
Proof.
  intros Hd Hm HY. unfold format_regex_match.
  apply re_d_complete; [assumption|]. cbn [re_dot].
  change (is_chr "." (cp ".")) with true. cbv iota.
  apply re_m_complete; [assumption|]. cbn [re_dot].
  change (is_chr "." (cp ".")) with true. cbv iota.
  destruct Y as [|c1 [|c2 [|c3 [|c4 [|? ?]]]]]; try discriminate.
  cbn [is_year_text] in HY. unfold re_Y. now rewrite HY.
Qed.

Lemma int_digits_number (s : str) :
  forallb is_decimal s = true ->
  forall acc,
    int_digits acc s
    = inr (fold_left
             (fun a c =>
                10 * a
                + match decimal_value c with Some v => Z.of_N v | None => 0 end)
             s acc).
Proof.
  induction s as [|c s IH]; intros H acc; [reflexivity|].
  cbn [forallb] in H. apply andb_true_iff in H as [Hc Hs].
  cbn [int_digits fold_left]. unfold is_decimal in Hc.
  destruct (decimal_value c); [|discriminate]. now apply IH.
Qed.

Lemma chr_not_blank (c : codepoint) :
  is_decimal c = true -> is_chr " " c = false.
Proof.
  intros H. unfold is_chr. destruct (cp " " =? c)%N eqn:E; [|reflexivity].
  apply N.eqb_eq in E. subst c. discriminate.
Qed.

Lemma int_number (c : codepoint) (s : str) :
  forallb is_decimal (c :: s) = true -> int (c :: s) = inr (number (c :: s)).
Proof.
  intros H. unfold int, number. cbn [lstrip].
  cbn [forallb] in H. pose proof H as Hc.
  apply andb_true_iff in Hc as [Hc _]. rewrite (chr_not_blank c Hc).
  now apply int_digits_number.
Qed.

Lemma in_range_decimal (lo hi c : codepoint) :
  in_range lo hi c = true -> (48 <= lo)%N -> (hi <= 57)%N ->
  is_decimal c = true.
Proof.
  unfold in_range. rewrite andb_true_iff, !N.leb_le. intros [? ?] ? ?.
  apply ascii_digit_is_decimal, ascii_digit_range. lia.
Qed.

Lemma chr_decimal (a : ascii) (c : codepoint) :
  is_chr a c = true -> is_decimal (cp a) = true -> is_decimal c = true.
Proof. unfold is_chr. intros H. apply N.eqb_eq in H as <-. auto. Qed.

Ltac digits :=
  repeat match goal with
    | H : _ && _ = true |- _ => apply andb_true_iff in H as [? ?]
    | H : in_range _ _ ?c = true |- is_decimal ?c = true =>
        apply (in_range_decimal _ _ _ H); vm_compute; discriminate
    | H : is_chr _ ?c = true |- is_decimal ?c = true =>
        apply (chr_decimal _ _ H); reflexivity
    | |- _ && _ = true => apply andb_true_iff; split
    | |- _ => assumption
    end.

Lemma int_day_text (d : str) :
  is_day_text d = true -> int d = inr (number d).
Proof.
  intros H. destruct d as [|c1 [|c2 [|? ?]]]; try discriminate;
    cbn [is_day_text] in H.
  - apply int_number. cbn [forallb]. rewrite andb_true_r. digits.
  - repeat (apply orb_true_iff in H as [H|H]);
      try (apply int_number; cbn [forallb]; rewrite andb_true_r; now digits).
    apply andb_true_iff in H as [Hb Hc].
    unfold is_chr in Hb. apply N.eqb_eq in Hb. subst c1.
    unfold int, number. cbn [lstrip fold_left].
    change (is_chr " " (cp " ")) with true. cbv iota.
    change (decimal_value (cp " ")) with (@None N).
    rewrite (chr_not_blank c2) by digits.
    cbn [int_digits].
    destruct (decimal_value c2) eqn:E; [reflexivity|].
    assert (Hd : is_decimal c2 = true) by digits.
    unfold is_decimal in Hd. now rewrite E in Hd.
Qed.

Lemma int_month_text (m : str) :
  is_month_text m = true -> int m = inr (number m).
Proof.
  intros H. destruct m as [|c1 [|c2 [|? ?]]]; try discriminate;
    cbn [is_month_text] in H.
  - apply int_number. cbn [forallb]. rewrite andb_true_r. digits.
  - repeat (apply orb_true_iff in H as [H|H]);
      apply int_number; cbn [forallb]; rewrite andb_true_r; now digits.
Qed.

Lemma int_year_text (Y : str) :
  is_year_text Y = true -> int Y = inr (number Y).
Proof.
  intros H. destruct Y as [|c1 [|c2 [|c3 [|c4 [|? ?]]]]]; try discriminate.
  cbn [is_year_text] in H. apply int_number. cbn [forallb].
  now rewrite andb_true_r, <- !andb_assoc in *.
Qed.

(** [strptime] reads exactly the texts made of a day, a dot, a month, a
    dot and a year, and builds the date from the three numbers. *)
Lemma strptime_dmY_reads (d m Y : str) :
  is_day_text d = true -> is_month_text m = true -> is_year_text Y = true ->
  strptime_dmY (d ++ u "." ++ m ++ u "." ++ Y)
  = datetime_new (number Y) (number m) (number d).
Proof.
  intros Hd Hm HY. unfold strptime_dmY.
  change (d ++ u "." ++ m ++ u "." ++ Y)
    with (d ++ cp "." :: m ++ cp "." :: Y).
  rewrite format_regex_match_complete by assumption.
  rewrite (int_year_text Y HY), (int_month_text m Hm), (int_day_text d Hd).
  reflexivity.
Qed.

Lemma strptime_dmY_read (text : str) (dt : datetime) :
  strptime_dmY text = inr dt ->
  exists d m Y,
    text = d ++ u "." ++ m ++ u "." ++ Y
    /\ is_day_text d = true /\ is_month_text m = true
    /\ is_year_text Y = true
    /\ datetime_new (number Y) (number m) (number d) = inr dt.
Proof.
  unfold strptime_dmY.
  destruct (format_regex_match text) as [[[[d m] Y] rest]|] eqn:E;
    [|discriminate].
  apply format_regex_match_sound in E as (-> & Hd & Hm & HY).
  destruct rest; [|discriminate]. rewrite app_nil_r.
  rewrite (int_year_text Y HY), (int_month_text m Hm), (int_day_text d Hd).
  cbn [bind]. intros H. now exists d, m, Y.
Qed.

Lemma Birthday_init_reads (text : str) (b : Birthday) :
  Birthday_init text = inr b <->
  exists d m Y,
    text = d ++ u "." ++ m ++ u "." ++ Y
    /\ is_day_text d = true /\ is_month_text m = true
    /\ is_year_text Y = true
    /\ check_date_fields (number Y) (number m) (number d) = inr tt
    /\ b = mkBirthday
             (mkdatetime (number Y) (number m) (number d) 0 0 0 0).
Proof.
  unfold Birthday_init. split.
  - destruct (strptime_dmY text) as [[]|dt] eqn:E; try discriminate.
    intros H. injection H as <-.
    apply strptime_dmY_read in E as (d & m & Y & -> & Hd & Hm & HY & E).
    exists d, m, Y. split; [reflexivity|]. repeat (split; [assumption|]).
    destruct (datetime_new_cases (number Y) (number m) (number d))
      as [[Hc Hn]|[msg Hn]]; rewrite Hn in E; [|discriminate].
    injection E as <-. auto.
  - intros (d & m & Y & -> & Hd & Hm & HY & Hc & ->).
    rewrite strptime_dmY_reads by assumption.
    unfold datetime_new. rewrite Hc. reflexivity.
Qed.

Lemma Birthday_init_refuses (text : str) :
  Birthday_init text = inl (ValueError msg_birthday) <->
  ~ exists d m Y,
      text = d ++ u "." ++ m ++ u "." ++ Y
      /\ is_day_text d = true /\ is_month_text m = true
      /\ is_year_text Y = true
      /\ check_date_fields (number Y) (number m) (number d) = inr tt.
Proof.
  split.
  - intros H (d & m & Y & Ht & Hd & Hm & HY & Hc).
    assert (Hb : Birthday_init text
                 = inr (mkBirthday (mkdatetime (number Y) (number m)
                                      (number d) 0 0 0 0))).
    { apply Birthday_init_reads. exists d, m, Y. auto 10. }
    congruence.
  - intros Hn.
    destruct (Birthday_init_cases text) as [(y & m & d & _ & H)|H];
      [|assumption].
    exfalso. apply Hn. apply Birthday_init_reads in H
      as (dt & mt & Yt & Ht & Hd & Hm & HY & Hc & _).
    exists dt, mt, Yt. auto 10.
Qed.

(** C5, as the code has it.  [Birthday(text)] either succeeds or raises
    "Invalid date format. Use DD.MM.YYYY".  It succeeds exactly when [text]
    is a day, a dot, a month, a dot and a year, where the day is two digits
    or one digit alone or after a blank, the month is two digits or one,
    the year is four digits, and the three numbers pass the date check of
    [datetime]; it then stores that date, and it refuses every other text
    with the message.  When it succeeds, rendering the stored date with
    "%d.%m.%Y" gives back [text] exactly when [text] has the shape
    DD.MM.YYYY (two ASCII digits, two ASCII digits, four ASCII digits) and
    the year is rendered with four digits (always from year 1000 on); texts
    such as "5.6.1990" are accepted too and come back padded.  A text of
    the shape DD.MM.YYYY is accepted exactly when its three numbers pass
    the date check. *)
Theorem Birthday_init_roundtrip (year_padded : bool) (text : str) :
  (Birthday_init text = inl (ValueError "Invalid date format. Use DD.MM.YYYY")
   \/ exists b, Birthday_init text = inr b)
  /\ (forall b,
        Birthday_init text = inr b <->
        exists d m Y,
          text = d ++ u "." ++ m ++ u "." ++ Y
          /\ is_day_text d = true /\ is_month_text m = true
          /\ is_year_text Y = true
          /\ check_date_fields (number Y) (number m) (number d) = inr tt
          /\ b = mkBirthday
                   (mkdatetime (number Y) (number m) (number d) 0 0 0 0))
  /\ (Birthday_init text
      = inl (ValueError "Invalid date format. Use DD.MM.YYYY") <->
      ~ exists d m Y,
          text = d ++ u "." ++ m ++ u "." ++ Y
          /\ is_day_text d = true /\ is_month_text m = true
          /\ is_year_text Y = true
          /\ check_date_fields (number Y) (number m) (number d) = inr tt)
  /\ (forall b,
        Birthday_init text = inr b ->
        (strftime_dmY year_padded (birthday_value b) = text <->
         canonical text = true
         /\ (year_padded = true \/ 1000 <= year (birthday_value b))))
  /\ (canonical text = true ->
      let '(y, m, d) := fields_of text in
      Birthday_init text
      = match check_date_fields y m d with
        | inr _ => inr (mkBirthday (mkdatetime y m d 0 0 0 0))
        | inl _ => inl (ValueError "Invalid date format. Use DD.MM.YYYY")
        end).
Proof.
  split; [|split; [|split; [|split]]].
  - destruct (Birthday_init_cases text) as [(y & m & d & _ & H)|H].
    + right. eauto.
    + now left.
  - apply Birthday_init_reads.
  - apply Birthday_init_refuses.
  - intros b Hb.
    destruct (Birthday_init_cases text) as [(y & m & d & Hc & H)|H];
      [|congruence].
    rewrite H in Hb. injection Hb as <-. simpl birthday_value.
    apply check_date_fields_inv in Hc as (Hy & Hm & Hd). split.
    + intros Hr. simpl year.
      assert (Hp : year_padded = true \/ 1000 <= y).
      { destruct year_padded; [now left|]. right.
        destruct (Z_lt_ge_dec y 1000) as [Hlt|Hge]; [|lia].
        rewrite <- Hr in H.
        rewrite strftime_short_year_rejected in H by lia. discriminate. }
      split; [|assumption]. rewrite <- Hr.
      now apply strftime_canonical.
    + intros [Hcan Hp]. simpl year in Hp.
      pose proof (Birthday_init_canonical text Hcan) as Hi.
      destruct (canonical_inv text Hcan)
        as (d1 & d2 & m1 & m2 & y1 & y2 & y3 & y4 & -> & Hf).
      inversion Hf as [|? ? Hd1 H1]; subst.
      inversion H1 as [|? ? Hd2 H2]; subst.
      inversion H2 as [|? ? Hm1 H3]; subst.
      inversion H3 as [|? ? Hm2 H4]; subst.
      inversion H4 as [|? ? Hy1 H5]; subst.
      inversion H5 as [|? ? Hy2 H6]; subst.
      inversion H6 as [|? ? Hy3 H7]; subst.
      inversion H7 as [|? ? Hy4 _]; subst.
      unfold fields_of in Hi. rewrite H in Hi.
      remember (1000 * digit y1 + 100 * digit y2 + 10 * digit y3 + digit y4)
        as Y eqn:EY.
      remember (10 * digit m1 + digit m2) as M eqn:EM.
      remember (10 * digit d1 + digit d2) as D eqn:ED.
      destruct (check_date_fields Y M D); [discriminate|].
      injection Hi as -> -> ->.
      rewrite strftime_padded by assumption. subst Y M D.
      rewrite pad4_digits, !pad2_digits by assumption. reflexivity.
  - apply Birthday_init_canonical.
Qed.

Lemma Birthday_init_roundtrip_witness :
  (exists b,
     Birthday_init (u "05.06.1990") = inr b
     /\ strftime_dmY false (birthday_value b) = u "05.06.1990")
  /\ ~ (exists d m Y,
          u "05-06-1990" = d ++ u "." ++ m ++ u "." ++ Y
          /\ is_day_text d = true /\ is_month_text m = true
          /\ is_year_text Y = true
          /\ check_date_fields (number Y) (number m) (number d) = inr tt).
Proof.
  split.
  - exists (mkBirthday (mkdatetime 1990 6 5 0 0 0 0)). split; [reflexivity|].
    apply (proj1 (proj2 (proj2 (proj2
                    (Birthday_init_roundtrip false (u "05.06.1990")))))
             (mkBirthday (mkdatetime 1990 6 5 0 0 0 0)) eq_refl).
    split; [reflexivity|]. right. simpl. lia.
  - apply (proj1 (proj1 (proj2 (proj2
                    (Birthday_init_roundtrip false (u "05-06-1990")))))).
    reflexivity.
Defined.

(** C5, the claim refuted: "5.6.1990" is accepted, and the stored date is
    rendered as "05.06.1990", which is not the text that was given. *)
Lemma Birthday_init_accepts_unpadded_text :
  Birthday_init (u "5.6.1990")
  = inr (mkBirthday (mkdatetime 1990 6 5 0 0 0 0))
  /\ (forall year_padded,
        strftime_dmY year_padded (mkdatetime 1990 6 5 0 0 0 0)
        = u "05.06.1990")
  /\ u "05.06.1990" <> u "5.6.1990".
Proof.
  split; [reflexivity|]. split; [now intros []|]. discriminate.
Qed.

(** ** Phones of a record *)

Lemma Phone_init_checked (n : str) :
  fullmatch_digits 10 n = true -> Phone_init n = inr (mkPhone n).
Proof. intros H. unfold Phone_init. now rewrite H. Qed.

Lemma Phone_init_inr (n : str) (p : Phone) :
  Phone_init n = inr p -> p = mkPhone n /\ fullmatch_digits 10 n = true.
Proof.
  unfold Phone_init. destruct (fullmatch_digits 10 n); simpl; [|discriminate].
  intros H. injection H as <-. auto.
Qed.

Lemma find_app_None {A} (f : A -> bool) (l l' : list A) :
  find f l = None -> find f (l ++ l') = find f l'.
Proof.
  induction l as [|a l IH]; simpl; [reflexivity|].
  destruct (f a); [discriminate | assumption].
Qed.

Lemma find_app_Some {A} (f : A -> bool) (l l' : list A) (a : A) :
  find f l = Some a -> find f (l ++ l') = Some a.
Proof.
  induction l as [|x l IH]; simpl; [discriminate|].
  destruct (f x); [trivial | assumption].
Qed.

Lemma phone_eta (p : Phone) : p = mkPhone (phone_value p).
Proof. now destruct p. Qed.

(** X1. [add_phone] with a number that [Phone] accepts appends it after the
    phones already there, changes nothing else, and [find_phone] then finds
    that number. *)
Theorem add_phone_then_find (self : ContactRecord) (n : str) :
  fullmatch_digits 10 n = true ->
  fst (add_phone n self) = inr tt
  /\ snd (add_phone n self)
     = mkRecord (name self) (phones self ++ [mkPhone n]) (birthday self)
  /\ find_phone n (snd (add_phone n self)) = Some (mkPhone n).
Proof.
  intros H. unfold add_phone. rewrite (Phone_init_checked n H). simpl.
  repeat split. unfold find_phone, set_phones. simpl.
  destruct (find (fun p => str_eqb (phone_value p) n) (phones self))
    as [p|] eqn:E.
  - rewrite (find_app_Some _ _ _ _ E). apply find_some in E as [_ E].
    apply str_eqb_true in E. rewrite (phone_eta p). now rewrite E.
  - rewrite (find_app_None _ _ _ E). simpl.
    replace (str_eqb n n) with true by (symmetry; now apply str_eqb_true).
    reflexivity.
Qed.

Lemma add_phone_then_find_witness :
  find_phone (u "0501234567")
    (snd (add_phone (u "0501234567") (Record_init (u "Alice"))))
  = Some (mkPhone (u "0501234567")).
Proof.
  apply (add_phone_then_find (Record_init (u "Alice")) (u "0501234567")).
  reflexivity.
Defined.

Lemma find_phone_None (self : ContactRecord) (n : str) :
  find_phone n self = None <->
  forall p, In p (phones self) -> phone_value p <> n.
Proof.
  unfold find_phone. split.
  - intros H p Hin Hp. apply (find_none _ _ H) in Hin.
    apply str_eqb_false in Hin. contradiction.
  - intros H. induction (phones self) as [|q l IH]; simpl; [reflexivity|].
    destruct (str_eqb (phone_value q) n) eqn:E.
    + apply str_eqb_true in E. exfalso. apply (H q); [now left | assumption].
    + apply IH. intros p Hp. apply H. now right.
Qed.

(** X2. [find_phone] returns the first phone with the given number, and
    [None] exactly when the record has no phone with that number. *)
Theorem find_phone_first (self : ContactRecord) (n : str) :
  (find_phone n self = None <->
   forall p, In p (phones self) -> phone_value p <> n)
  /\ (forall p, find_phone n self = Some p ->
        exists pre post,
          phones self = pre ++ p :: post
          /\ phone_value p = n
          /\ forall q, In q pre -> phone_value q <> n).
Proof.
  split; [apply find_phone_None|]. unfold find_phone.
  induction (phones self) as [|q l IH]; simpl; intros p H; [discriminate|].
  destruct (str_eqb (phone_value q) n) eqn:E.
  - injection H as <-. apply str_eqb_true in E.
    exists [], l. repeat split; [assumption | intros ? []].
  - destruct (IH p H) as (pre & post & Hl & Hp & Hpre).
    exists (q :: pre), post. rewrite Hl. repeat split; [assumption|].
    intros r [<-|Hr]; [now apply str_eqb_false | now apply Hpre].
Qed.

Lemma find_phone_first_witness :
  let self := snd (add_phone (u "0501234567") (Record_init (u "Alice"))) in
  find_phone (u "0970000000") self = None.
Proof.
  intros self. apply (proj1 (find_phone_first self (u "0970000000"))).
  intros p [<-|[]]. vm_compute. discriminate.
Defined.

(** X3. [remove_phone] never raises; it takes out every phone with the
    given number and keeps the others in their order, so that the number
    is no longer found; on a record without that number it changes
    nothing. *)
Theorem remove_phone_all (self : ContactRecord) (n : str) :
  fst (remove_phone n self) = inr tt
  /\ name (snd (remove_phone n self)) = name self
  /\ birthday (snd (remove_phone n self)) = birthday self
  /\ phones (snd (remove_phone n self))
     = filter (fun p => negb (str_eqb (phone_value p) n)) (phones self)
  /\ (forall p, In p (phones (snd (remove_phone n self))) <->
        In p (phones self) /\ phone_value p <> n)
  /\ find_phone n (snd (remove_phone n self)) = None
  /\ ((forall p, In p (phones self) -> phone_value p <> n) ->
      snd (remove_phone n self) = self).
Proof.
  unfold remove_phone. simpl. repeat split; try reflexivity.
  - apply filter_In in H. tauto.
  - apply filter_In in H as [_ H]. apply negb_true_iff in H.
    now apply str_eqb_false.
  - intros [H1 H2]. apply filter_In. split; [assumption|].
    apply negb_true_iff. now apply str_eqb_false.
  - apply find_phone_None. simpl. intros p Hp.
    apply filter_In in Hp as [_ Hp]. apply negb_true_iff in Hp.
    now apply str_eqb_false.
  - intros H. destruct self as [nm ps bd]. unfold set_phones. simpl in *.
    f_equal. induction ps as [|p ps IH]; simpl; [reflexivity|].
    replace (str_eqb (phone_value p) n) with false
      by (symmetry; apply str_eqb_false, H; now left).
    simpl. f_equal. apply IH. intros q Hq. apply H. now right.
Qed.

Lemma remove_phone_all_witness :
  let self := snd (add_phone (u "0501234567") (Record_init (u "Alice"))) in
  snd (remove_phone (u "0970000000") self) = self.
Proof.
  intros self.
  apply (proj2 (proj2 (proj2 (proj2 (proj2 (proj2
           (remove_phone_all self (u "0970000000")))))))).
  intros p [<-|[]]. vm_compute. discriminate.
Defined.

Lemma setitem_app {A} (pre : list A) (a b : A) (post : list A) :
  setitem (pre ++ a :: post) (List.length pre) b = pre ++ b :: post.
Proof. induction pre as [|x pre IH]; simpl; [reflexivity | now rewrite IH]. Qed.

Lemma edit_phone_from_first (old_phone new_phone : str) (p : Phone)
    (post : list Phone) (self : ContactRecord) :
  forall pre idx,
    (forall q, In q pre -> phone_value q <> old_phone) ->
    phone_value p = old_phone ->
    fullmatch_digits 10 new_phone = true ->
    edit_phone_from old_phone new_phone idx (pre ++ p :: post) self
    = (inr tt,
       set_phones self
         (setitem (phones self) (idx + List.length pre) (mkPhone new_phone))).
Proof.
  induction pre as [|q pre IH]; intros idx Hpre Hp Hn; simpl.
  - rewrite Hp. replace (str_eqb old_phone old_phone) with true
      by (symmetry; now apply str_eqb_true).
    rewrite (Phone_init_checked _ Hn). now rewrite Nat.add_0_r.
  - replace (str_eqb (phone_value q) old_phone) with false
      by (symmetry; apply str_eqb_false, Hpre; now left).
    rewrite IH; try assumption.
    + now rewrite Nat.add_succ_r.
    + intros r Hr. apply Hpre. now right.
Qed.

(** X4. [edit_phone] with a new number that [Phone] accepts replaces the
    first phone equal to [old], at its place; the phones before and after
    it, later phones equal to [old] among them, stay as they are. *)
Theorem edit_phone_replaces_first (self : ContactRecord)
    (old_phone new_phone : str) (pre : list Phone) (p : Phone)
    (post : list Phone) :
  phones self = pre ++ p :: post ->
  (forall q, In q pre -> phone_value q <> old_phone) ->
  phone_value p = old_phone ->
  fullmatch_digits 10 new_phone = true ->
  edit_phone old_phone new_phone self
  = (inr tt,
     mkRecord (name self) (pre ++ mkPhone new_phone :: post) (birthday self)).
Proof.
  intros Hs Hpre Hp Hn. unfold edit_phone. rewrite Hs.
  rewrite (edit_phone_from_first _ _ _ _ _ pre 0%nat Hpre Hp Hn).
  unfold set_phones. rewrite Hs. simpl. now rewrite setitem_app.
Qed.

Lemma edit_phone_replaces_first_witness :
  let p := mkPhone (u "0501234567") in
  let q := mkPhone (u "0970000000") in
  edit_phone (u "0501234567") (u "0931112233")
    (mkRecord (mkName (u "Alice")) [q; p; p] None)
  = (inr tt,
     mkRecord (mkName (u "Alice")) [q; mkPhone (u "0931112233"); p] None).
Proof.
  intros p q.
  apply (edit_phone_replaces_first
           (mkRecord (mkName (u "Alice")) [q; p; p] None)
           (u "0501234567") (u "0931112233") [q] p [p]).
  - reflexivity.
  - intros r [<-|[]]. vm_compute. discriminate.
  - reflexivity.
  - reflexivity.
Defined.

Lemma add_birthday_inr (text : str) (b : Birthday) :
  Birthday_init text = inr b ->
  exists y m d,
    check_date_fields y m d = inr tt
    /\ birthday_value b = mkdatetime y m d 0 0 0 0.
Proof.
  intros H.
  destruct (Birthday_init_cases text) as [(y & m & d & Hc & Hi)|Hi];
    rewrite Hi in H; [|discriminate].
  injection H as <-. now exists y, m, d.
Qed.

Lemma edit_phone_from_keeps (old_phone new_phone : str) (self : ContactRecord)
    (rest : list Phone) :
  forall idx,
    let self' := snd (edit_phone_from old_phone new_phone idx rest self) in
    self' = self
    \/ (fullmatch_digits 10 new_phone = true
        /\ exists i,
             self' = set_phones self
                       (setitem (phones self) i (mkPhone new_phone))).
Proof.
  induction rest as [|p rest IH]; intros idx; simpl; [now left|].
  destruct (str_eqb (phone_value p) old_phone); [|apply IH].
  destruct (Phone_init new_phone) as [e|q] eqn:E; simpl; [now left|].
  apply Phone_init_inr in E as [-> E]. right. split; [assumption|].
  now exists idx.
Qed.

Lemma Forall_setitem {A} (P : A -> Prop) (l : list A) (a : A) :
  Forall P l -> P a -> forall i, Forall P (setitem l i a).
Proof.
  intros Hl Ha. induction Hl as [|x l Hx Hl IH]; intros i; simpl.
  - constructor.
  - destruct i; constructor; auto.
Qed.

Lemma record_step_keeps (self : ContactRecord) (c : record_call) :
  phones_checked self -> birthday_checked self ->
  name (record_step self c) = name self
  /\ phones_checked (record_step self c)
  /\ birthday_checked (record_step self c).
Proof.
  intros Hp Hb. destruct c as [n|n|o n|t]; simpl.
  - unfold add_phone. destruct (Phone_init n) as [e|p] eqn:E; simpl; auto.
    apply Phone_init_inr in E as [-> E]. repeat split; [|assumption].
    unfold phones_checked. simpl. apply Forall_app. split; [assumption|].
    now repeat constructor.
  - unfold remove_phone. simpl. repeat split; [|assumption].
    unfold phones_checked in *. simpl. rewrite Forall_forall in *.
    intros p H. apply filter_In in H as [H _]. now apply Hp.
  - unfold edit_phone.
    destruct (edit_phone_from_keeps o n self (phones self) 0%nat)
      as [->|[Hn [i ->]]]; auto.
    repeat split; [|assumption]. unfold phones_checked. simpl.
    now apply Forall_setitem.
  - unfold add_birthday. destruct (Birthday_init t) as [e|b] eqn:E; simpl; auto.
    repeat split; [assumption|]. intros b' H. simpl in H. injection H as <-.
    now apply (add_birthday_inr t).
Qed.

(** X5. Whatever methods are called on a record made by [Record(name)],
    and whether they return or raise, the record keeps its name, every
    phone in its list has passed the check of [Phone], and its birthday,
    if set, is a date of the calendar at midnight. *)
Theorem record_invariant (nm : str) (calls : list record_call) :
  name (record_run calls (Record_init nm)) = mkName nm
  /\ phones_checked (record_run calls (Record_init nm))
  /\ birthday_checked (record_run calls (Record_init nm)).
Proof.
  assert (H : forall self,
             phones_checked self -> birthday_checked self ->
             name (record_run calls self) = name self
             /\ phones_checked (record_run calls self)
             /\ birthday_checked (record_run calls self)).
  { unfold record_run. induction calls as [|c calls IH]; intros self Hp Hb.
    - simpl. auto.
    - simpl. destruct (record_step_keeps self c Hp Hb) as (Hn & Hp' & Hb').
      destruct (IH _ Hp' Hb') as (Hn2 & ? & ?). rewrite Hn2, Hn. auto. }
  apply (H (Record_init nm)).
  - constructor.
  - intros b Hb. discriminate.
Qed.

(** ** Entries of the directory *)

Lemma dict_get_setitem_same (key : str) (v : ContactRecord) (d : AddressBook) :
  dict_get key (dict_setitem key v d) = Some v.
Proof.
  induction d as [|[k w] d IH]; simpl.
  - now rewrite (proj2 (str_eqb_true key key) eq_refl).
  - destruct (str_eqb k key) eqn:E; simpl; rewrite E; [reflexivity|assumption].
Qed.

Lemma dict_get_setitem_other (key key' : str) (v : ContactRecord)
    (d : AddressBook) :
  key' <> key -> dict_get key' (dict_setitem key v d) = dict_get key' d.
Proof.
  intros Hne. induction d as [|[k w] d IH]; simpl.
  - now rewrite (proj2 (str_eqb_false key key')) by congruence.
  - destruct (str_eqb k key) eqn:E; simpl.
    + apply str_eqb_true in E. subst k.
      now rewrite (proj2 (str_eqb_false key key')) by congruence.
    + now rewrite IH.
Qed.

Lemma dict_setitem_present (key : str) (v : ContactRecord) (d : AddressBook) :
  In key (dict_keys d) ->
  exists pre w post,
    d = pre ++ (key, w) :: post
    /\ ~ In key (dict_keys pre)
    /\ dict_setitem key v d = pre ++ (key, v) :: post.
Proof.
  induction d as [|[k w] d IH]; simpl; [tauto|]. intros H.
  destruct (str_eqb k key) eqn:E.
  - apply str_eqb_true in E. subst k. exists [], w, d. simpl. tauto.
  - apply str_eqb_false in E. destruct H as [H|H]; [contradiction|].
    destruct (IH H) as (pre & w' & post & Hd & Hn & Hs).
    exists ((k, w) :: pre), w', post. simpl. rewrite Hd at 1. rewrite Hs.
    repeat split; tauto.
Qed.

Lemma dict_setitem_absent (key : str) (v : ContactRecord) (d : AddressBook) :
  ~ In key (dict_keys d) -> dict_setitem key v d = d ++ [(key, v)].
Proof.
  induction d as [|[k w] d IH]; simpl; intros H; [reflexivity|].
  replace (str_eqb k key) with false by (symmetry; apply str_eqb_false; tauto).
  rewrite IH; tauto.
Qed.

(** X6. After [add_record(record)], [find] with the name of the record
    returns that record, and [find] with any other name returns what it
    returned before. *)
Theorem add_record_then_find (record : ContactRecord) (self : AddressBook) :
  find_record (name_value (name record)) (add_record record self)
  = Some record
  /\ forall key,
       key <> name_value (name record) ->
       find_record key (add_record record self) = find_record key self.
Proof.
  unfold find_record, add_record. split.
  - apply dict_get_setitem_same.
  - intros key H. now apply dict_get_setitem_other.
Qed.

Lemma add_record_then_find_witness :
  let alice := Record_init (u "Alice") in
  let bob := Record_init (u "Bob") in
  find_record (u "Alice") (add_record bob (add_record alice empty_book))
  = Some alice.
Proof.
  intros alice bob.
  rewrite (proj2 (add_record_then_find bob (add_record alice empty_book))
             (u "Alice")) by discriminate.
  apply (proj1 (add_record_then_find alice empty_book)).
Defined.

(** X7. [add_record] with a name that is already a key puts the record in
    the place of the one stored under that name, which is lost with its
    phones and birthday, and leaves the order and the number of entries as
    they were; with a new name it adds the entry after all others. *)
Theorem add_record_overwrites_in_place (record : ContactRecord)
    (self : AddressBook) :
  let key := name_value (name record) in
  (In key (dict_keys self) ->
   exists pre old post,
     self = pre ++ (key, old) :: post
     /\ ~ In key (dict_keys pre)
     /\ add_record record self = pre ++ (key, record) :: post
     /\ dict_keys (add_record record self) = dict_keys self)
  /\ (~ In key (dict_keys self) ->
      add_record record self = self ++ [(key, record)]).
Proof.
  intros key. unfold add_record. fold key. split.
  - intros H.
    destruct (dict_setitem_present key record self H)
      as (pre & w & post & Hd & Hn & Hs).
    exists pre, w, post. repeat split; try assumption.
    rewrite Hs, Hd. unfold dict_keys. now rewrite !map_app.
  - apply dict_setitem_absent.
Qed.

Lemma add_record_overwrites_in_place_witness :
  let alice := Record_init (u "Alice") in
  let alice' := snd (add_phone (u "0501234567") alice) in
  let bob := Record_init (u "Bob") in
  let book := add_record bob (add_record alice' empty_book) in
  dict_keys (add_record alice book) = [u "Alice"; u "Bob"]
  /\ add_record bob [(u "Alice", alice)]
     = [(u "Alice", alice); (u "Bob", bob)].
Proof.
  intros alice alice' bob book. split.
  - destruct (proj1 (add_record_overwrites_in_place alice book))
      as (pre & old & post & _ & _ & _ & Hk).
    + left. reflexivity.
    + exact Hk.
  - apply (proj2 (add_record_overwrites_in_place bob [(u "Alice", alice)])).
    intros [H|[]]. discriminate.
Defined.

Lemma dict_delitem_last (key : str) (v : ContactRecord) (d : AddressBook) :
  ~ In key (dict_keys d) -> dict_delitem key (d ++ [(key, v)]) = d.
Proof.
  induction d as [|[k w] d IH]; simpl; intros H.
  - now rewrite (proj2 (str_eqb_true key key) eq_refl).
  - replace (str_eqb k key) with false
      by (symmetry; apply str_eqb_false; tauto).
    rewrite IH; tauto.
Qed.

(** X8. Adding a record under a name that is no key yet and deleting that
    name gives back the directory as it was. *)
Theorem delete_after_add_record (record : ContactRecord) (self : AddressBook) :
  ~ In (name_value (name record)) (dict_keys self) ->
  delete (name_value (name record)) (add_record record self) = self.
Proof.
  intros H. unfold delete, add_record.
  rewrite (dict_setitem_absent _ _ _ H).
  replace (dict_contains _ _) with true.
  - now apply dict_delitem_last.
  - symmetry. apply dict_contains_In. unfold dict_keys. rewrite map_app.
    apply in_or_app. right. now left.
Qed.

Lemma delete_after_add_record_witness :
  let alice := Record_init (u "Alice") in
  let bob := Record_init (u "Bob") in
  delete (u "Bob") (add_record bob [(u "Alice", alice)])
  = [(u "Alice", alice)].
Proof.
  intros alice bob.
  apply (delete_after_add_record bob [(u "Alice", alice)]).
  intros [H|[]]. discriminate.
Defined.

(** ** When the birthday query returns *)

Lemma visit_inr_iff (today : datetime) (days : Z) (record : ContactRecord) :
  (exists sel, visit today days record = inr sel) <->
  forall b,
    birthday record = Some b ->
    exists bday,
      datetime_replace_year (birthday_value b) (year today) = inr bday
      /\ (datetime_le today bday = true ->
          exists limit, datetime_add_days today days = inr limit).
Proof.
  unfold visit. split.
  - intros [sel H] b Hb. rewrite Hb in H.
    destruct (datetime_replace_year (birthday_value b) (year today))
      as [e|bday]; [discriminate|]. simpl in H.
    exists bday. split; [reflexivity|]. intros Hle. rewrite Hle in H.
    destruct (datetime_add_days today days) as [e|limit]; [discriminate|].
    now exists limit.
  - intros H. destruct (birthday record) as [b|]; [|eauto].
    destruct (H b eq_refl) as [bday [-> Hl]]. simpl.
    destruct (datetime_le today bday); [|eauto].
    destruct (Hl eq_refl) as [limit ->]. simpl. eauto.
Qed.

(** X9. On a directory in which no record has a birthday the query
    returns the empty list, for every clock value and every window, also
    one that is too long for the calendar. *)
Theorem upcoming_without_birthdays (self : AddressBook) (today : datetime)
    (days : Z) :
  (forall record, In record (dict_values self) -> birthday record = None) ->
  get_upcoming_birthdays self today days = inr [].
Proof.
  intros H. unfold get_upcoming_birthdays.
  rewrite upcoming_from_all_visited.
  - simpl. f_equal. induction (dict_values self) as [|r l IH]; [reflexivity|].
    simpl. unfold selected at 1, visit. rewrite (H r) by now left.
    apply IH. intros r' Hr'. apply H. now right.
  - apply Forall_forall. intros r Hr. exists false. unfold visit.
    now rewrite (H r Hr).
Qed.

Lemma upcoming_without_birthdays_witness :
  let alice := snd (add_phone (u "0501234567") (Record_init (u "Alice"))) in
  get_upcoming_birthdays [(u "Alice", alice)]
    (mkdatetime 2024 6 1 12 0 0 0) 100000000
  = inr [].
Proof.
  intros alice. apply upcoming_without_birthdays.
  intros record [<-|[]]. reflexivity.
Defined.

(** X10. The query returns a list exactly when, for every record with a
    birthday, the birthday can be moved to the year of [today] and, if the
    moved birthday is not before [today], the end [today + days] of the
    window is a date; in every other case it raises. *)
Theorem upcoming_returns_iff (self : AddressBook) (today : datetime)
    (days : Z) :
  (exists l, get_upcoming_birthdays self today days = inr l) <->
  forall record b,
    In record (dict_values self) ->
    birthday record = Some b ->
    exists bday,
      datetime_replace_year (birthday_value b) (year today) = inr bday
      /\ (datetime_le today bday = true ->
          exists limit, datetime_add_days today days = inr limit).
Proof.
  unfold get_upcoming_birthdays. split.
  - intros [l H] record b Hin Hb.
    apply upcoming_from_inr in H as [_ Hf]. rewrite Forall_forall in Hf.
    apply (proj1 (visit_inr_iff today days record) (Hf record Hin) b Hb).
  - intros H. eexists. apply upcoming_from_all_visited.
    apply Forall_forall. intros record Hin.
    apply visit_inr_iff. intros b Hb. now apply (H record b).
Qed.

Lemma upcoming_returns_iff_witness :
  let today := mkdatetime 9999 12 28 0 0 0 0 in
  let early := record_born (u "Alice") (u "05.06.1990") in
  let late := record_born (u "Bob") (u "30.12.1990") in
  (exists l, get_upcoming_birthdays [(u "Alice", early)] today 7 = inr l)
  /\ ~ (exists l, get_upcoming_birthdays [(u "Bob", late)] today 7 = inr l).
Proof.
  intros today early late. split.
  - apply (proj2 (upcoming_returns_iff [(u "Alice", early)] today 7)).
    intros record b [<-|[]] Hb. injection Hb as <-.
    eexists. split; [reflexivity|]. discriminate.
  - intros H.
    pose proof (proj1 (upcoming_returns_iff [(u "Bob", late)] today 7) H
                  late (mkBirthday (mkdatetime 1990 12 30 0 0 0 0))
                  (or_introl eq_refl) eq_refl) as [bday [Hr Hl]].
    injection Hr as <-. destruct (Hl eq_refl) as [limit Hlim]. discriminate.
Defined.

(** ** Reading a command line *)

Lemma lstrip_space_head (s : str) :
  match lstrip_space s with
  | [] => True
  | c :: _ => isspace c = false
  end.
Proof.
  induction s as [|c s IH]; simpl; [trivial|].
  destruct (isspace c) eqn:E; [assumption | simpl; assumption].
Qed.

Lemma lstrip_space_blank (s : str) :
  lstrip_space s = [] <-> forallb isspace s = true.
Proof.
  induction s as [|c s IH]; simpl; [tauto|].
  destruct (isspace c); simpl; [assumption|]. split; discriminate.
Qed.

Lemma token_fst (s : str) : Forall (fun c => isspace c = false) (fst (token s)).
Proof.
  induction s as [|c s IH]; simpl; [constructor|].
  destruct (isspace c) eqn:E; simpl; [constructor|].
  destruct (token s) as [t rest]. simpl in *. now constructor.
Qed.

Lemma token_snd (s : str) :
  match snd (token s) with
  | [] => True
  | c :: _ => isspace c = true
  end.
Proof.
  induction s as [|c s IH]; simpl; [trivial|].
  destruct (isspace c) eqn:E; simpl; [assumption|].
  now destruct (token s) as [t rest].
Qed.

Lemma token_head (c : codepoint) (s : str) :
  isspace c = false -> exists t, fst (token (c :: s)) = c :: t.
Proof.
  intros H. simpl. rewrite H. destruct (token s) as [t rest]. now exists t.
Qed.

Lemma split_from_token (s : str) :
  forall word,
    split_from word s = split_from (word ++ fst (token s)) (snd (token s)).
Proof.
  induction s as [|c s IH]; intros word; simpl.
  - now rewrite app_nil_r.
  - destruct (isspace c) eqn:E; simpl.
    + rewrite app_nil_r. simpl. now rewrite E.
    + rewrite IH. destruct (token s) as [t rest]. simpl.
      now rewrite <- app_assoc.
Qed.

Lemma split_from_lstrip (s : str) :
  split_from [] s = split_from [] (lstrip_space s).
Proof.
  induction s as [|c s IH]; simpl; [reflexivity|].
  destruct (isspace c) eqn:E; [assumption|]. simpl. now rewrite E.
Qed.

Lemma parse_input_body_split (command_input : str) :
  Bot.parse_input_body command_input
  = match split command_input with
    | [] => inl Bot.IndexError
    | command :: args => inr (command, args)
    end.
Proof.
  unfold Bot.parse_input_body, split_maxsplit_1, split.
  rewrite split_from_lstrip.
  pose proof (lstrip_space_head command_input) as Hc.
  destruct (lstrip_space command_input) as [|c s]; [reflexivity|].
  rewrite (split_from_token (c :: s) []).
  destruct (token_head c s Hc) as [t Ht].
  pose proof (token_snd (c :: s)) as Hr.
  destruct (token (c :: s)) as [word rest]. simpl in Ht, Hr. subst word.
  simpl app. destruct rest as [|d rest]; [reflexivity|].
  simpl. rewrite Hr. rewrite (split_from_lstrip rest).
  now destruct (lstrip_space rest).
Qed.

(** X11. [parse_input] does with [split(maxsplit=1)] and a second [split]
    what one [split] of the whole line does: the command is the first word
    of the line and the arguments are all the words after it; for a line
    without any word the body raises [IndexError], and the decorated
    function returns the text that stands for it. *)
Theorem parse_input_words (command_input : str) :
  Bot.parse_input_body command_input
  = match split command_input with
    | [] => inl Bot.IndexError
    | command :: args => inr (command, args)
    end
  /\ Bot.parse_input command_input
     = match split command_input with
       | [] => inr (inl (u "Enter the argument for the command."))
       | command :: args => inr (inr (command, args))
       end.
Proof.
  unfold Bot.parse_input. rewrite parse_input_body_split.
  split; [reflexivity|]. now destruct (split command_input).
Qed.

Lemma split_blank (s : str) : split s = [] <-> forallb isspace s = true.
Proof.
  unfold split. rewrite split_from_lstrip, <- lstrip_space_blank.
  pose proof (lstrip_space_head s) as Hc.
  destruct (lstrip_space s) as [|c r]; [tauto|].
  split; [|discriminate]. simpl. rewrite Hc.
  rewrite (split_from_token r [c]).
  pose proof (token_snd r) as Hr.
  destruct (token r) as [t rest]. simpl in *.
  destruct rest as [|d rest]; simpl; [discriminate|].
  rewrite Hr. discriminate.
Qed.

(** X12. [parse_input] never raises.  For a line that is empty or made of
    blanks only it returns, in place of the pair [(command, args)], the
    text "Enter the argument for the command."; for every other line it
    returns the pair. *)
Theorem parse_input_blank (command_input : str) :
  (forallb isspace command_input = true ->
   Bot.parse_input command_input
   = inr (inl (u "Enter the argument for the command.")))
  /\ (forallb isspace command_input = false ->
      exists command args,
        split command_input = command :: args
        /\ Bot.parse_input command_input = inr (inr (command, args))).
Proof.
  unfold Bot.parse_input. rewrite parse_input_body_split.
  pose proof (split_blank command_input) as Hb. split; intros H.
  - rewrite (proj2 Hb H). reflexivity.
  - destruct (split command_input) as [|command args].
    + rewrite (proj1 Hb eq_refl) in H. discriminate.
    + now exists command, args.
Qed.

Lemma parse_input_blank_witness :
  Bot.parse_input (u "   ")
  = inr (inl (u "Enter the argument for the command."))
  /\ exists command args,
       split (u "add  Alice 0501234567 ") = command :: args
       /\ Bot.parse_input (u "add  Alice 0501234567 ")
          = inr (inr (command, args)).
Proof.
  split.
  - apply (proj1 (parse_input_blank (u "   "))). reflexivity.
  - apply (proj2 (parse_input_blank (u "add  Alice 0501234567 "))).
    reflexivity.
Defined.

Lemma split_from_is_word (s : str) :
  forall word,
    Forall (fun c => isspace c = false) word ->
    Forall is_word (split_from word s).
Proof.
  induction s as [|c s IH]; intros word Hw; simpl.
  - destruct word as [|a word]; [constructor|].
    constructor; [split; [discriminate|assumption] | constructor].
  - destruct (isspace c) eqn:E.
    + destruct word as [|a word]; [apply IH; constructor|].
      constructor; [split; [discriminate|assumption] | apply IH; constructor].
    + apply IH. apply Forall_app. split; [assumption|]. now repeat constructor.
Qed.

(** X13. The command and the arguments that [parse_input] returns are
    words: none of them is empty and none contains a blank. *)
Theorem parse_input_returns_words (command_input command : str)
    (args : list str) :
  Bot.parse_input command_input = inr (inr (command, args)) ->
  is_word command /\ Forall is_word args.
Proof.
  unfold Bot.parse_input. rewrite parse_input_body_split.
  pose proof (split_from_is_word command_input [] (Forall_nil _)) as H.
  fold (split command_input) in H.
  destruct (split command_input) as [|c a]; [discriminate|].
  intros E. injection E as <- <-. now inversion H.
Qed.

Lemma parse_input_returns_words_witness :
  is_word (u "add") /\ Forall is_word [u "Alice"; u "0501234567"].
Proof.
  apply (parse_input_returns_words (u " add Alice   0501234567")).
  reflexivity.
Defined.

Lemma split_from_app_word (w : str) :
  Forall (fun c => isspace c = false) w ->
  forall word rest, split_from word (w ++ rest) = split_from (word ++ w) rest.
Proof.
  induction 1 as [|c w Hc Hw IH]; intros word rest; simpl.
  - now rewrite app_nil_r.
  - rewrite Hc, IH. now rewrite <- app_assoc.
Qed.

Lemma split_join_words (words : list str) :
  Forall is_word words -> split (join (u " ") words) = words.
Proof.
  unfold split. induction 1 as [|w words [Hne Hw] Hws IH]; [reflexivity|].
  simpl join. destruct words as [|w2 words].
  - rewrite <- (app_nil_r w) at 1. rewrite (split_from_app_word w Hw).
    simpl. destruct w; [contradiction | reflexivity].
  - rewrite (split_from_app_word w Hw).
    remember (join (u " ") (w2 :: words)) as line eqn:El.
    destruct w as [|a w]; [contradiction|].
    transitivity ((a :: w) :: split_from [] line); [reflexivity|].
    now rewrite IH.
Qed.

(** X14. A line made of a command word and argument words with one space
    between them is read back by [parse_input] as that command and those
    arguments. *)
Theorem parse_input_join (command : str) (args : list str) :
  is_word command -> Forall is_word args ->
  Bot.parse_input (join (u " ") (command :: args))
  = inr (inr (command, args)).
Proof.
  intros Hc Ha. unfold Bot.parse_input. rewrite parse_input_body_split.
  rewrite split_join_words by now constructor. reflexivity.
Qed.

Lemma parse_input_join_witness :
  Bot.parse_input (u "change Alice 0501234567 0931112233")
  = inr (inr (u "change", [u "Alice"; u "0501234567"; u "0931112233"])).
Proof.
  apply (parse_input_join (u "change")
           [u "Alice"; u "0501234567"; u "0931112233"]).
  - split; [discriminate | repeat constructor].
  - repeat constructor; discriminate.
Defined.

(** ** Commands on contacts *)

Lemma dict_get_at (key : str) (w : ContactRecord) (pre post : AddressBook) :
  ~ In key (dict_keys pre) ->
  dict_get key (pre ++ (key, w) :: post) = Some w.
Proof.
  intros H. rewrite dict_get_app. apply dict_get_None in H. rewrite H.
  simpl. now rewrite (proj2 (str_eqb_true key key) eq_refl).
Qed.

Lemma dict_setitem_at (key : str) (v w : ContactRecord)
    (pre post : AddressBook) :
  ~ In key (dict_keys pre) ->
  dict_setitem key v (pre ++ (key, w) :: post) = pre ++ (key, v) :: post.
Proof.
  induction pre as [|[k x] pre IH]; simpl; intros H.
  - now rewrite (proj2 (str_eqb_true key key) eq_refl).
  - replace (str_eqb k key) with false
      by (symmetry; apply str_eqb_false; tauto).
    rewrite IH; tauto.
Qed.

Lemma fullmatch_digits_nonempty (n : str) :
  fullmatch_digits 10 n = true -> exists c n', n = c :: n'.
Proof. destruct n as [|c n']; [discriminate | eauto]. Qed.

Lemma find_record_None (key : str) (book : AddressBook) :
  find_record key book = None <-> ~ In key (dict_keys book).
Proof. apply dict_get_None. Qed.

(** X15. [add_contact] with a name and a phone that [Phone] accepts: for a
    name that is not in the directory it adds, after all entries, a
    contact with that one phone and answers "Contact added."; for a name
    that is there it appends the phone to the phones of that contact, in
    its place in the directory, and answers "Contact updated.". *)
Theorem add_contact_valid_phone (nm number : str) (book : AddressBook) :
  fullmatch_digits 10 number = true ->
  (find_record nm book = None ->
   Bot.add_contact [nm; number] book
   = (inr (u "Contact added."),
      book ++ [(nm, mkRecord (mkName nm) [mkPhone number] None)]))
  /\ (forall pre record post,
        book = pre ++ (nm, record) :: post ->
        ~ In nm (dict_keys pre) ->
        Bot.add_contact [nm; number] book
        = (inr (u "Contact updated."),
           pre ++ (nm,
                   mkRecord (name record)
                     (phones record ++ [mkPhone number]) (birthday record))
               :: post)).
Proof.
  intros Hp. destruct (fullmatch_digits_nonempty number Hp) as (c & n' & Hn).
  unfold Bot.add_contact, Bot.add_contact_body. simpl Nat.ltb. cbv iota.
  split.
  - intros Hf. rewrite Hf. apply find_record_None in Hf.
    unfold add_record, Record_init. simpl name_value.
    rewrite (dict_setitem_absent _ _ _ Hf).
    unfold add_phone. rewrite (Phone_init_checked number Hp).
    rewrite Hn at 1. unfold set_phones. simpl.
    now rewrite (dict_setitem_at nm _ _ book [] Hf).
  - intros pre record post -> Hpre. unfold find_record.
    rewrite (dict_get_at _ _ _ _ Hpre).
    unfold add_phone. rewrite (Phone_init_checked number Hp).
    rewrite Hn at 1. unfold set_phones. simpl.
    now rewrite (dict_setitem_at nm _ _ pre post Hpre).
Qed.

Lemma add_contact_valid_phone_witness :
  let alice := mkRecord (mkName (u "Alice")) [mkPhone (u "0501234567")] None in
  Bot.add_contact [u "Alice"; u "0501234567"] empty_book
  = (inr (u "Contact added."), [(u "Alice", alice)])
  /\ Bot.add_contact [u "Alice"; u "0931112233"] [(u "Alice", alice)]
     = (inr (u "Contact updated."),
        [(u "Alice",
          mkRecord (mkName (u "Alice"))
            [mkPhone (u "0501234567"); mkPhone (u "0931112233")] None)]).
Proof.
  intros alice. split.
  - apply (proj1 (add_contact_valid_phone (u "Alice") (u "0501234567")
                    empty_book eq_refl)).
    reflexivity.
  - apply (proj2 (add_contact_valid_phone (u "Alice") (u "0931112233")
                    [(u "Alice", alice)] eq_refl) [] alice []).
    + reflexivity.
    + intros [].
Defined.

Lemma Phone_init_refused (n : str) :
  fullmatch_digits 10 n = false ->
  Phone_init n = inl (ValueError msg_phone).
Proof. intros H. unfold Phone_init. now rewrite H. Qed.

(** X16. [add_contact] with a phone that [Phone] refuses answers "Phone
    number must be 10 digits.".  For a name that is in the directory
    nothing changes; for a name that is not, the contact has been added
    all the same, without any phone. *)
Theorem add_contact_refused_phone (nm number : str) (book : AddressBook) :
  number <> [] ->
  fullmatch_digits 10 number = false ->
  (find_record nm book = None ->
   Bot.add_contact [nm; number] book
   = (inr (u "Phone number must be 10 digits."),
      book ++ [(nm, Record_init nm)]))
  /\ (forall record,
        find_record nm book = Some record ->
        Bot.add_contact [nm; number] book
        = (inr (u "Phone number must be 10 digits."), book)).
Proof.
  intros Hne Hp. unfold Bot.add_contact, Bot.add_contact_body.
  simpl Nat.ltb. cbv iota.
  destruct number as [|c n']; [contradiction|]. split.
  - intros Hf. rewrite Hf. apply find_record_None in Hf.
    unfold add_record, Record_init. simpl name_value.
    rewrite (dict_setitem_absent _ _ _ Hf).
    unfold add_phone. rewrite (Phone_init_refused _ Hp). reflexivity.
  - intros record Hf. rewrite Hf.
    unfold add_phone. rewrite (Phone_init_refused _ Hp). reflexivity.
Qed.

Lemma add_contact_refused_phone_witness :
  Bot.add_contact [u "Alice"; u "12345"] empty_book
  = (inr (u "Phone number must be 10 digits."),
     [(u "Alice", Record_init (u "Alice"))]).
Proof.
  apply (proj1 (add_contact_refused_phone (u "Alice") (u "12345") empty_book
                  ltac:(discriminate) eq_refl)).
  reflexivity.
Defined.

(** X17. [add_contact] with fewer than two arguments answers "Give me name
    and phone please.", and with more than two it answers with the text of
    the [ValueError] of the unpacking [name, phone = args]; in both cases
    the directory stays as it was. *)
Theorem add_contact_arity (args : list str) (book : AddressBook) :
  ((List.length args < 2)%nat ->
   Bot.add_contact args book
   = (inr (u "Give me name and phone please."), book))
  /\ ((2 < List.length args)%nat ->
      Bot.add_contact args book = (inr (u Bot.msg_unpack), book)).
Proof.
  unfold Bot.add_contact, Bot.add_contact_body. split; intros H.
  - apply Nat.ltb_lt in H. now rewrite H.
  - replace (List.length args <? 2)%nat with false
      by (symmetry; apply Nat.ltb_ge; lia).
    destruct args as [|a [|b [|c args]]]; simpl in H; try lia. reflexivity.
Qed.

Lemma add_contact_arity_witness :
  Bot.add_contact [u "Alice"] empty_book
  = (inr (u "Give me name and phone please."), empty_book)
  /\ Bot.add_contact [u "Alice"; u "Smith"; u "0501234567"] empty_book
     = (inr (u "too many values to unpack (expected 2)"), empty_book).
Proof.
  split.
  - apply (proj1 (add_contact_arity [u "Alice"] empty_book)). simpl. lia.
  - apply (proj2 (add_contact_arity [u "Alice"; u "Smith"; u "0501234567"]
                    empty_book)).
    simpl. lia.
Defined.

(** ** Commands on birthdays *)

Lemma strftime_of_canonical (year_padded : bool) (text : str) (b : Birthday) :
  canonical text = true ->
  Birthday_init text = inr b ->
  year_padded = true \/ 1000 <= year (birthday_value b) ->
  strftime_dmY year_padded (birthday_value b) = text.
Proof.
  intros Hcan Hb Hp.
  pose proof (Birthday_init_canonical text Hcan) as Hi.
  destruct (canonical_inv text Hcan)
    as (d1 & d2 & m1 & m2 & y1 & y2 & y3 & y4 & -> & Hf).
  inversion Hf as [|? ? Hd1 H1]; subst.
  inversion H1 as [|? ? Hd2 H2]; subst.
  inversion H2 as [|? ? Hm1 H3]; subst.
  inversion H3 as [|? ? Hm2 H4]; subst.
  inversion H4 as [|? ? Hy1 H5]; subst.
  inversion H5 as [|? ? Hy2 H6]; subst.
  inversion H6 as [|? ? Hy3 H7]; subst.
  inversion H7 as [|? ? Hy4 _]; subst.
  unfold fields_of in Hi. rewrite Hb in Hi.
  remember (1000 * digit y1 + 100 * digit y2 + 10 * digit y3 + digit y4)
    as Y eqn:EY.
  remember (10 * digit m1 + digit m2) as M eqn:EM.
  remember (10 * digit d1 + digit d2) as D eqn:ED.
  destruct (check_date_fields Y M D); [discriminate|].
  injection Hi as ->. simpl in Hp. simpl birthday_value.
  rewrite strftime_padded by assumption. subst Y M D.
  rewrite pad4_digits, !pad2_digits by assumption. reflexivity.
Qed.

(** X18. [add_birthday] for a name that is not in the directory answers
    "Contact not found."; for a contact and a text that [Birthday] refuses
    it answers "Invalid date format. Use DD.MM.YYYY"; in both cases the
    directory stays as it was.  For a contact and a text that [Birthday]
    accepts it stores the date in that contact, in place of an earlier
    birthday, and answers with the text as it was given. *)
Theorem add_birthday_command (nm text : str) (book : AddressBook) :
  (find_record nm book = None ->
   Bot.add_birthday [nm; text] book = (inr (u "Contact not found."), book))
  /\ (forall pre record post,
        book = pre ++ (nm, record) :: post ->
        ~ In nm (dict_keys pre) ->
        Bot.add_birthday [nm; text] book
        = match Birthday_init text with
          | inr b =>
              (inr (u "Birthday for '" ++ nm ++ u "' added: " ++ text
                    ++ u "."),
               pre ++ (nm, mkRecord (name record) (phones record) (Some b))
                   :: post)
          | inl _ => (inr (u "Invalid date format. Use DD.MM.YYYY"), book)
          end).
Proof.
  unfold Bot.add_birthday, Bot.add_birthday_body. simpl Nat.ltb. cbv iota.
  split.
  - intros Hf. now rewrite Hf.
  - intros pre record post -> Hpre. unfold find_record.
    rewrite (dict_get_at _ _ _ _ Hpre). unfold add_birthday.
    destruct (Birthday_init_cases text) as [(y & m & d & _ & Hb)|Hb];
      rewrite Hb.
    + unfold set_birthday. simpl.
      now rewrite (dict_setitem_at nm _ _ pre post Hpre).
    + reflexivity.
Qed.

Lemma add_birthday_command_witness :
  let alice := Record_init (u "Alice") in
  Bot.add_birthday [u "Bob"; u "05.06.1990"] [(u "Alice", alice)]
  = (inr (u "Contact not found."), [(u "Alice", alice)])
  /\ Bot.add_birthday [u "Alice"; u "5.6.1990"] [(u "Alice", alice)]
     = (inr (u "Birthday for 'Alice' added: 5.6.1990."),
        [(u "Alice",
          mkRecord (mkName (u "Alice")) []
            (Some (mkBirthday (mkdatetime 1990 6 5 0 0 0 0))))])
  /\ Bot.add_birthday [u "Alice"; u "31.02.2024"] [(u "Alice", alice)]
     = (inr (u "Invalid date format. Use DD.MM.YYYY"), [(u "Alice", alice)]).
Proof.
  intros alice. split; [|split].
  - apply (proj1 (add_birthday_command (u "Bob") (u "05.06.1990")
                    [(u "Alice", alice)])).
    reflexivity.
  - apply (proj2 (add_birthday_command (u "Alice") (u "5.6.1990")
                    [(u "Alice", alice)]) [] alice [] eq_refl).
    intros [].
  - apply (proj2 (add_birthday_command (u "Alice") (u "31.02.2024")
                    [(u "Alice", alice)]) [] alice [] eq_refl).
    intros [].
Defined.

(** X19. After [add_birthday] has stored, for a contact, a text of the
    exact shape DD.MM.YYYY, of a year that is rendered with four digits,
    [show_birthday] for that contact answers with the very text that was
    given. *)
Theorem show_birthday_after_add_birthday (year_padded : bool) (nm text : str)
    (book : AddressBook) (record : ContactRecord) (b : Birthday) :
  find_record nm book = Some record ->
  canonical text = true ->
  Birthday_init text = inr b ->
  year_padded = true \/ 1000 <= year (birthday_value b) ->
  Bot.show_birthday year_padded [nm]
    (snd (Bot.add_birthday [nm; text] book))
  = inr (u "Birthday for '" ++ nm ++ u "': " ++ text ++ u ".").
Proof.
  intros Hf Hcan Hb Hp.
  unfold Bot.add_birthday, Bot.add_birthday_body. simpl Nat.ltb. cbv iota.
  rewrite Hf. unfold add_birthday. rewrite Hb. simpl snd.
  unfold Bot.show_birthday, Bot.show_birthday_body, find_record.
  rewrite dict_get_setitem_same. unfold set_birthday. cbv beta iota.
  now rewrite (strftime_of_canonical year_padded text b Hcan Hb Hp).
Qed.

Lemma show_birthday_after_add_birthday_witness :
  Bot.show_birthday false [u "Alice"]
    (snd (Bot.add_birthday [u "Alice"; u "05.06.1990"]
            [(u "Alice", Record_init (u "Alice"))]))
  = inr (u "Birthday for 'Alice': 05.06.1990.").
Proof.
  apply (show_birthday_after_add_birthday false (u "Alice") (u "05.06.1990")
           [(u "Alice", Record_init (u "Alice"))] (Record_init (u "Alice"))
           (mkBirthday (mkdatetime 1990 6 5 0 0 0 0)));
    try reflexivity.
  right. simpl. lia.
Defined.

(** X20. [birthdays] answers "No upcoming birthdays." on a directory in
    which no contact has a birthday.  When a contact has its birthday on
    29 February, the year of the clock is not a leap year and the end of
    the seven days is a date, it returns the text of the [ValueError] of
    the year projection as its answer, in place of the contacts, and does
    not raise. *)
Theorem birthdays_answers (year_padded : bool) (today : datetime)
    (args : list str) (book : AddressBook) :
  ((forall record, In record (dict_values book) -> birthday record = None) ->
   Bot.birthdays year_padded today args book
   = inr (u "No upcoming birthdays."))
  /\ (forall record b limit,
        In record (dict_values book) ->
        birthday record = Some b ->
        month (birthday_value b) = 2 ->
        day (birthday_value b) = 29 ->
        is_leap (year today) = false ->
        datetime_add_days today 7 = inr limit ->
        exists msg,
          get_upcoming_birthdays book today 7 = inl (ValueError msg)
          /\ Bot.birthdays year_padded today args book = inr (u msg)).
Proof.
  unfold Bot.birthdays, Bot.birthdays_body. split.
  - intros H.
    assert (E : get_upcoming_birthdays book today 7 = inr []).
    { unfold get_upcoming_birthdays. rewrite upcoming_from_all_visited.
      - simpl. f_equal.
        induction (dict_values book) as [|r l IH]; [reflexivity|].
        simpl. unfold selected at 1, visit. rewrite (H r) by now left.
        apply IH. intros r' Hr'. apply H. now right.
      - apply Forall_forall. intros r Hr. exists false. unfold visit.
        now rewrite (H r Hr). }
    now rewrite E.
  - intros record b limit Hin Hb Hm Hd Hl Ha.
    destruct (feb29_replace_raises _ _ Hm Hd Hl) as [msg Hr].
    assert (Hv : visit today 7 record = inl (ValueError msg)).
    { apply visit_ValueError. now exists b. }
    destruct (upcoming_from_raises today 7 _ _ _ Hin Hv []) as [e He].
    unfold get_upcoming_birthdays. rewrite He.
    destruct (upcoming_from_inl _ _ _ _ _ He) as (record' & Hin' & Hv').
    destruct e as [msg'|].
    + now exists msg'.
    + apply visit_OverflowError in Hv'. congruence.
Qed.

Lemma birthdays_answers_witness :
  let today := mkdatetime 2023 6 1 9 0 0 0 in
  let bob := record_born (u "Bob") (u "29.02.2000") in
  Bot.birthdays false today [] [(u "Alice", Record_init (u "Alice"))]
  = inr (u "No upcoming birthdays.")
  /\ exists msg,
       get_upcoming_birthdays [(u "Bob", bob)] today 7
       = inl (ValueError msg)
       /\ Bot.birthdays false today [] [(u "Bob", bob)] = inr (u msg).
Proof.
  intros today bob. split.
  - apply (proj1 (birthdays_answers false today []
                    [(u "Alice", Record_init (u "Alice"))])).
    intros record [<-|[]]. reflexivity.
  - apply (proj2 (birthdays_answers false today [] [(u "Bob", bob)])
             bob (mkBirthday (mkdatetime 2000 2 29 0 0 0 0))
             (mkdatetime 2023 6 8 9 0 0 0));
      try reflexivity.
    now left.
Defined.

(** ** The loop of [main] *)

Lemma strip_blank (line : str) :
  forallb isspace line = true -> strip line = [].
Proof.
  intros H. unfold strip. now rewrite (proj2 (lstrip_space_blank line) H).
Qed.

(** X21. A line that is empty or made of blanks only ends the run: the
    text that [parse_input] returns for it cannot be unpacked into
    [command, args], the [ValueError] is caught by nothing, and the
    directory of that moment is not saved. *)
Theorem blank_line_ends_run (year_padded : bool) (today : datetime)
    (line : str) (book : AddressBook) :
  forallb isspace line = true ->
  Bot.turn year_padded today line book
  = Bot.Uncaught (Bot.Core (ValueError "too many values to unpack (expected 2)"))
      book
  /\ forall rest printed,
       Bot.loop year_padded ((today, line) :: rest) printed book
       = (printed,
          Bot.Crashed
            (Bot.Core (ValueError "too many values to unpack (expected 2)"))
            book).
Proof.
  intros H.
  assert (E : Bot.turn year_padded today line book
              = Bot.Uncaught (Bot.Core (ValueError Bot.msg_unpack)) book).
  { unfold Bot.turn. now rewrite (strip_blank line H). }
  split; [exact E|]. intros rest printed. simpl. now rewrite E.
Qed.

Lemma blank_line_ends_run_witness :
  let today := mkdatetime 2024 6 1 9 0 0 0 in
  Bot.main false None
    [(today, u "add Alice 0501234567"); (today, u "  "); (today, u "exit")]
  = ([u "Welcome to the assistant bot!"; u "Contact added."],
     Bot.Crashed
       (Bot.Core (ValueError "too many values to unpack (expected 2)"))
       [(u "Alice",
         mkRecord (mkName (u "Alice")) [mkPhone (u "0501234567")] None)]).
Proof.
  intros today. unfold Bot.main.
  transitivity
    (Bot.loop false [(today, u "  "); (today, u "exit")]
       [u "Welcome to the assistant bot!"; u "Contact added."]
       [(u "Alice",
         mkRecord (mkName (u "Alice")) [mkPhone (u "0501234567")] None)]);
    [reflexivity|].
  apply (proj2 (blank_line_ends_run false today (u "  ") _ eq_refl)
           [(today, u "exit")]).
Defined.

(** X22. The command "close" or "exit", with or without arguments, prints
    "Good bye!" and saves the directory as it is; the lines after it are
    not read. *)
Theorem exit_saves (year_padded : bool) (today : datetime) (line : str)
    (book : AddressBook) (command : str) (args : list str) :
  Bot.parse_input (strip line) = inr (inr (command, args)) ->
  command = u "close" \/ command = u "exit" ->
  Bot.turn year_padded today line book = Bot.Break [u "Good bye!"] book
  /\ forall rest printed,
       Bot.loop year_padded ((today, line) :: rest) printed book
       = (printed ++ [u "Good bye!"], Bot.Saved book).
Proof.
  intros Hp Hc.
  assert (E : Bot.turn year_padded today line book
              = Bot.Break [u "Good bye!"] book).
  { unfold Bot.turn. rewrite Hp. destruct Hc as [-> | ->]; reflexivity. }
  split; [exact E|]. intros rest printed. simpl. now rewrite E.
Qed.

Lemma exit_saves_witness :
  let today := mkdatetime 2024 6 1 9 0 0 0 in
  let book := [(u "Alice", Record_init (u "Alice"))] in
  Bot.main false (Some book) [(today, u " exit now "); (today, u "all")]
  = ([u "Welcome to the assistant bot!"; u "Good bye!"], Bot.Saved book).
Proof.
  intros today book.
  apply (proj2 (exit_saves false today (u " exit now ") book (u "exit")
                  [u "now"] eq_refl (or_intror eq_refl))).
Defined.

Lemma find_after_delete (nm : str) (book : AddressBook) :
  distinct_keys book ->
  find_record nm (delete nm book) = None
  /\ forall key, key <> nm ->
       find_record key (delete nm book) = find_record key book.
Proof.
  intros Hnd. unfold find_record.
  destruct (in_dec str_eq_dec nm (dict_keys book)) as [Hin|Hn].
  - destruct (dict_delitem_split nm book Hin)
      as (pre & w & post & Hs & Hpre & Hd).
    assert (Hdel : delete nm book = pre ++ post).
    { unfold delete. apply dict_contains_In in Hin. now rewrite Hin. }
    assert (Hpost : ~ In nm (dict_keys post)).
    { unfold distinct_keys, dict_keys in Hnd. rewrite Hs, map_app in Hnd.
      simpl in Hnd. apply NoDup_remove_2 in Hnd. intros Hp. apply Hnd.
      apply in_or_app. now right. }
    rewrite Hdel. split.
    + apply dict_get_None. unfold dict_keys. rewrite map_app.
      intros H. apply in_app_or in H. tauto.
    + intros key Hk. rewrite Hs, !dict_get_app. simpl.
      assert (E : str_eqb nm key = false) by (apply str_eqb_false; congruence).
      now rewrite E.
  - rewrite (delete_absent nm book Hn). split; [|reflexivity].
    now apply dict_get_None.
Qed.

(** X23. The command "delete" with one argument prints "Contact '...'
    deleted." whether or not the directory had a contact of that name;
    after it the name is not found, and the other contacts are found as
    before; for a name that was not there the directory is what it
    was. *)
Theorem delete_command_reports (year_padded : bool) (today : datetime)
    (line : str) (book : AddressBook) (nm : str) :
  Bot.parse_input (strip line) = inr (inr (u "delete", [nm])) ->
  distinct_keys book ->
  Bot.turn year_padded today line book
  = Bot.Continue [u "Contact '" ++ nm ++ u "' deleted."] (delete nm book)
  /\ find_record nm (delete nm book) = None
  /\ (forall key, key <> nm ->
        find_record key (delete nm book) = find_record key book)
  /\ (find_record nm book = None -> delete nm book = book).
Proof.
  intros Hp Hnd. split.
  - unfold Bot.turn. rewrite Hp. reflexivity.
  - destruct (find_after_delete nm book Hnd) as [H1 H2].
    repeat split; try assumption.
    intros H. apply delete_absent. now apply dict_get_None.
Qed.

Lemma delete_command_reports_witness :
  let today := mkdatetime 2024 6 1 9 0 0 0 in
  let book := [(u "Alice", Record_init (u "Alice"))] in
  Bot.turn false today (u "delete Bob") book
  = Bot.Continue [u "Contact 'Bob' deleted."] book.
Proof.
  intros today book.
  destruct (delete_command_reports false today (u "delete Bob") book (u "Bob"))
    as (H1 & _ & _ & H4).
  - reflexivity.
  - repeat constructor. intros [].
  - rewrite H1, H4; reflexivity.
Defined.

(** X24. Only the commands "add", "change", "add-birthday" and "delete"
    can change the directory: a turn with any other command, known or
    not, leaves the directory as it was, also when it ends the loop.  A
    command that is none of the eleven words of the program, in lower
    case, prints "Invalid command. Please try again.". *)
Theorem other_commands_read_only (year_padded : bool) (today : datetime)
    (line : str) (book : AddressBook) (command : str) (args : list str) :
  Bot.parse_input (strip line) = inr (inr (command, args)) ->
  (~ In command [u "add"; u "change"; u "add-birthday"; u "delete"] ->
   book_after (Bot.turn year_padded today line book) = book)
  /\ (~ In command
          [u "close"; u "exit"; u "hello"; u "add"; u "change"; u "phone";
           u "all"; u "add-birthday"; u "show-birthday"; u "birthdays";
           u "delete"] ->
      Bot.turn year_padded today line book
      = Bot.Continue [u "Invalid command. Please try again."] book).
Proof.
  intros Hp. split; intros Hc; unfold Bot.turn; rewrite Hp.
  2: { repeat match goal with
       | |- context [str_eqb command (u ?w)] =>
           replace (str_eqb command (u w)) with false
             by (symmetry; apply str_eqb_false; intros ->; apply Hc;
                 simpl; tauto)
       end.
       reflexivity. }
  assert (Hadd : str_eqb command (u "add") = false)
    by (apply str_eqb_false; intros ->; apply Hc; simpl; tauto).
  assert (Hch : str_eqb command (u "change") = false)
    by (apply str_eqb_false; intros ->; apply Hc; simpl; tauto).
  assert (Hab : str_eqb command (u "add-birthday") = false)
    by (apply str_eqb_false; intros ->; apply Hc; simpl; tauto).
  assert (Hdel : str_eqb command (u "delete") = false)
    by (apply str_eqb_false; intros ->; apply Hc; simpl; tauto).
  rewrite Hadd, Hch, Hab, Hdel.
  destruct (str_eqb command (u "close") || str_eqb command (u "exit"));
    [reflexivity|].
  destruct (str_eqb command (u "hello")); [reflexivity|].
  destruct (str_eqb command (u "phone")).
  { unfold Bot.phone. destruct args as [|nm [|? ?]]; try reflexivity.
    now destruct (find_record nm book). }
  destruct (str_eqb command (u "all")).
  { unfold Bot.all. now destruct book. }
  destruct (str_eqb command (u "show-birthday")).
  { unfold Bot.printing.
    now destruct (Bot.show_birthday year_padded args book). }
  destruct (str_eqb command (u "birthdays")).
  { unfold Bot.printing.
    now destruct (Bot.birthdays year_padded today args book). }
  reflexivity.
Qed.

Lemma other_commands_read_only_witness :
  let today := mkdatetime 2024 6 1 9 0 0 0 in
  let book := [(u "Alice", Record_init (u "Alice"))] in
  book_after (Bot.turn false today (u "remove Alice") book) = book.
Proof.
  intros today book.
  apply (proj1 (other_commands_read_only false today (u "remove Alice") book
                  (u "remove") [u "Alice"] eq_refl)).
  simpl. intros [H|[H|[H|[H|[]]]]]; discriminate.
Defined.

(** X25. The command "change" with a name, an old and a new phone, for a
    contact of the directory: when no phone of the contact equals the old
    one it prints "Old phone number not found."; when one does and [Phone]
    refuses the new one it prints "Phone number must be 10 digits."; in
    both cases the directory stays as it was.  When one does and [Phone]
    accepts the new one, the first such phone is replaced, at its place,
    in that contact, at its place in the directory, and the change is
    reported. *)
Theorem change_command (year_padded : bool) (today : datetime) (line : str)
    (nm old_phone new_phone : str) (pre post : AddressBook)
    (record : ContactRecord) :
  let book := pre ++ (nm, record) :: post in
  Bot.parse_input (strip line)
  = inr (inr (u "change", [nm; old_phone; new_phone])) ->
  ~ In nm (dict_keys pre) ->
  ((forall p, In p (phones record) -> phone_value p <> old_phone) ->
   Bot.turn year_padded today line book
   = Bot.Continue [u "Old phone number not found."] book)
  /\ ((exists p, In p (phones record) /\ phone_value p = old_phone) ->
      fullmatch_digits 10 new_phone = false ->
      Bot.turn year_padded today line book
      = Bot.Continue [u "Phone number must be 10 digits."] book)
  /\ (forall before p after,
        phones record = before ++ p :: after ->
        (forall q, In q before -> phone_value q <> old_phone) ->
        phone_value p = old_phone ->
        fullmatch_digits 10 new_phone = true ->
        Bot.turn year_padded today line book
        = Bot.Continue
            [u "Phone number for '" ++ nm ++ u "' updated from "
             ++ old_phone ++ u " to " ++ new_phone ++ u "."]
            (pre ++ (nm,
                     mkRecord (name record)
                       (before ++ mkPhone new_phone :: after)
                       (birthday record))
                 :: post)).
Proof.
  intros book Hp Hpre.
  assert (E : Bot.turn year_padded today line book
              = Bot.change [nm; old_phone; new_phone] book).
  { unfold Bot.turn. rewrite Hp. reflexivity. }
  rewrite E. unfold Bot.change, book, find_record.
  rewrite (dict_get_at _ _ _ _ Hpre). unfold edit_phone.
  split; [|split].
  - intros H. now rewrite (edit_phone_from_absent _ _ _ 0%nat record H).
  - intros H Hn.
    now rewrite (edit_phone_from_invalid _ _ (ValueError msg_phone) _
                   0%nat record (Phone_init_refused _ Hn) H).
  - intros before p after Hs Hb Hv Hn. rewrite Hs.
    rewrite (edit_phone_from_first _ _ _ _ _ before 0%nat Hb Hv Hn).
    unfold set_phones. rewrite Hs. simpl. rewrite setitem_app.
    now rewrite (dict_setitem_at nm _ _ pre post Hpre).
Qed.

Lemma change_command_witness :
  let today := mkdatetime 2024 6 1 9 0 0 0 in
  let alice p := mkRecord (mkName (u "Alice")) [mkPhone p] None in
  Bot.turn false today (u "change Alice 0501234567 0931112233")
    [(u "Alice", alice (u "0501234567"))]
  = Bot.Continue
      [u "Phone number for 'Alice' updated from 0501234567 to 0931112233."]
      [(u "Alice", alice (u "0931112233"))]
  /\ Bot.turn false today (u "change Alice 0501234567 12345")
       [(u "Alice", alice (u "0501234567"))]
     = Bot.Continue [u "Phone number must be 10 digits."]
         [(u "Alice", alice (u "0501234567"))]
  /\ Bot.turn false today (u "change Alice 0970000000 0931112233")
       [(u "Alice", alice (u "0501234567"))]
     = Bot.Continue [u "Old phone number not found."]
         [(u "Alice", alice (u "0501234567"))].
Proof.
  intros today alice. split; [|split].
  - apply (proj2 (proj2 (change_command false today
                           (u "change Alice 0501234567 0931112233")
                           (u "Alice") (u "0501234567") (u "0931112233")
                           [] [] (alice (u "0501234567")) eq_refl
                           (fun H => H)))
             [] (mkPhone (u "0501234567")) []);
      try reflexivity.
    intros q [].
  - apply (proj1 (proj2 (change_command false today
                           (u "change Alice 0501234567 12345")
                           (u "Alice") (u "0501234567") (u "12345")
                           [] [] (alice (u "0501234567")) eq_refl
                           (fun H => H))));
      [|reflexivity].
    exists (mkPhone (u "0501234567")). split; [now left | reflexivity].
  - apply (proj1 (change_command false today
                    (u "change Alice 0970000000 0931112233")
                    (u "Alice") (u "0970000000") (u "0931112233")
                    [] [] (alice (u "0501234567")) eq_refl (fun H => H))).
    intros p [<-|[]]. vm_compute. discriminate.
Defined.

(** ** What every run keeps *)

Lemma Forall_dict_setitem (P : str * ContactRecord -> Prop) (key : str)
    (v : ContactRecord) (d : AddressBook) :
  Forall P d -> (forall k, P (k, v)) -> Forall P (dict_setitem key v d).
Proof.
  intros Hd Hv. induction Hd as [|[k w] d Hk Hd IH]; simpl.
  - repeat constructor. apply Hv.
  - destruct (str_eqb k key); constructor; auto.
Qed.

Lemma Forall_dict_delitem (P : str * ContactRecord -> Prop) (key : str)
    (d : AddressBook) :
  Forall P d -> Forall P (dict_delitem key d).
Proof.
  intros Hd. induction Hd as [|[k w] d Hk Hd IH]; simpl; [constructor|].
  destruct (str_eqb k key); [assumption | now constructor].
Qed.

Lemma book_checked_setitem (key : str) (v : ContactRecord) (d : AddressBook) :
  book_checked d ->
  name_value (name v) = key ->
  phones_checked v -> birthday_checked v ->
  book_checked (dict_setitem key v d).
Proof.
  intros (Hk & Hd & Hf) Hn Hp Hb. subst key. repeat split.
  - now apply keys_match_setitem.
  - unfold distinct_keys. rewrite dict_keys_setitem.
    destruct (in_dec str_eq_dec _ (dict_keys d)) as [Hi|Hni]; [assumption|].
    apply NoDup_app; [assumption | repeat constructor; intros [] |].
    intros x Hx [<-|[]]. contradiction.
  - apply Forall_dict_setitem; [assumption|]. intros k. now split.
Qed.

Lemma book_checked_delete (nm : str) (d : AddressBook) :
  book_checked d -> book_checked (delete nm d).
Proof.
  intros (Hk & Hd & Hf). unfold delete.
  destruct (dict_contains nm d); [|now repeat split]. repeat split.
  - now apply keys_match_delitem.
  - now apply dict_keys_delitem.
  - now apply Forall_dict_delitem.
Qed.

Lemma book_checked_found (nm : str) (record : ContactRecord)
    (d : AddressBook) :
  book_checked d ->
  find_record nm d = Some record ->
  name_value (name record) = nm
  /\ phones_checked record /\ birthday_checked record.
Proof.
  intros (Hk & _ & Hf) H. apply dict_get_In in H.
  unfold keys_match in Hk. rewrite Forall_forall in Hk, Hf.
  split; [exact (Hk _ H) | exact (Hf _ H)].
Qed.

Lemma book_checked_method (nm : str) (record : ContactRecord)
    (c : record_call) (d : AddressBook) :
  book_checked d ->
  find_record nm d = Some record ->
  book_checked (dict_setitem nm (record_step record c) d).
Proof.
  intros Hd Hf.
  destruct (book_checked_found nm record d Hd Hf) as (Hn & Hp & Hb).
  destruct (record_step_keeps record c Hp Hb) as (Hn' & Hp' & Hb').
  apply book_checked_setitem; try assumption. now rewrite Hn'.
Qed.

Lemma book_checked_add_contact (args : list str) (d : AddressBook) :
  book_checked d -> book_checked (snd (Bot.add_contact args d)).
Proof.
  intros Hd. unfold Bot.add_contact, Bot.add_contact_body.
  destruct (List.length args <? 2)%nat; [assumption|].
  destruct args as [|nm [|number [|? ?]]]; try assumption.
  assert (Hnew : book_checked (add_record (Record_init nm) d)).
  { apply book_checked_setitem; [assumption | reflexivity | constructor |].
    intros b Hb. discriminate. }
  destruct (find_record nm d) as [record|] eqn:Hf.
  - destruct number as [|c n']; [assumption|].
    pose proof (book_checked_method nm record (DoAddPhone (c :: n')) d Hd Hf)
      as Hm.
    simpl in Hm. now destruct (add_phone (c :: n') record) as [[e|[]] r].
  - destruct number as [|c n']; [assumption|].
    assert (Hf' : find_record nm (add_record (Record_init nm) d)
                  = Some (Record_init nm)).
    { unfold find_record, add_record. apply dict_get_setitem_same. }
    pose proof (book_checked_method nm _ (DoAddPhone (c :: n')) _ Hnew Hf')
      as Hm.
    simpl in Hm.
    now destruct (add_phone (c :: n') (Record_init nm)) as [[e|[]] r].
Qed.

Lemma book_checked_add_birthday (args : list str) (d : AddressBook) :
  book_checked d -> book_checked (snd (Bot.add_birthday args d)).
Proof.
  intros Hd. unfold Bot.add_birthday, Bot.add_birthday_body.
  destruct (List.length args <? 2)%nat; [assumption|].
  destruct args as [|nm [|text [|? ?]]]; try assumption.
  destruct (find_record nm d) as [record|] eqn:Hf; [|assumption].
  pose proof (book_checked_method nm record (DoAddBirthday text) d Hd Hf)
    as Hm.
  simpl in Hm. now destruct (add_birthday text record) as [[e|[]] r].
Qed.

Lemma book_after_printing (r : (Bot.pyexn + str) * AddressBook) :
  book_after (Bot.printing r) = snd r.
Proof. now destruct r as [[e|m] b]. Qed.

Lemma book_checked_turn (year_padded : bool) (today : datetime) (line : str)
    (d : AddressBook) :
  book_checked d -> book_checked (book_after (Bot.turn year_padded today line d)).
Proof.
  intros Hd. unfold Bot.turn.
  destruct (Bot.parse_input (strip line)) as [e|[m|[command args]]];
    try assumption.
  destruct (str_eqb command (u "close") || str_eqb command (u "exit"));
    [assumption|].
  destruct (str_eqb command (u "hello")); [assumption|].
  destruct (str_eqb command (u "add")).
  { rewrite book_after_printing. now apply book_checked_add_contact. }
  destruct (str_eqb command (u "change")).
  { unfold Bot.change.
    destruct args as [|nm [|o [|n [|? ?]]]]; try assumption.
    destruct (find_record nm d) as [record|] eqn:Hf; [|assumption].
    pose proof (book_checked_method nm record (DoEditPhone o n) d Hd Hf) as Hm.
    simpl in Hm.
    now destruct (edit_phone o n record) as [[[msg|]|[]] r]. }
  destruct (str_eqb command (u "phone")).
  { unfold Bot.phone. destruct args as [|nm [|? ?]]; try assumption.
    now destruct (find_record nm d). }
  destruct (str_eqb command (u "all")).
  { unfold Bot.all. now destruct d. }
  destruct (str_eqb command (u "add-birthday")).
  { rewrite book_after_printing. now apply book_checked_add_birthday. }
  destruct (str_eqb command (u "show-birthday")).
  { now rewrite book_after_printing. }
  destruct (str_eqb command (u "birthdays")).
  { now rewrite book_after_printing. }
  destruct (str_eqb command (u "delete")); [|assumption].
  unfold Bot.delete_contact. destruct args as [|nm [|? ?]]; try assumption.
  simpl. now apply book_checked_delete.
Qed.

Lemma book_checked_loop (year_padded : bool)
    (inputs : list (datetime * str)) :
  forall printed d,
    book_checked d ->
    book_checked (ending_book (snd (Bot.loop year_padded inputs printed d))).
Proof.
  induction inputs as [|[today line] inputs IH]; intros printed d Hd; simpl.
  - assumption.
  - pose proof (book_checked_turn year_padded today line d Hd) as Ht.
    destruct (Bot.turn year_padded today line d) as [out d'|out d'|e d'];
      simpl in *; [now apply IH | assumption | assumption].
Qed.

(** X26. Whatever lines a run of [main] reads, starting without a file or
    from a saved directory that is well formed, the directory it ends
    with, saved or not, is well formed: its keys are distinct, every
    contact is stored under its own name, every phone has passed the
    check of [Phone] and every birthday is a date of the calendar. *)
Theorem run_keeps_directory_checked (year_padded : bool)
    (file : option AddressBook) (inputs : list (datetime * str)) :
  (forall book, file = Some book -> book_checked book) ->
  book_checked (ending_book (snd (Bot.main year_padded file inputs))).
Proof.
  intros H. unfold Bot.main. apply book_checked_loop.
  destruct file as [book|]; simpl.
  - now apply H.
  - repeat split; constructor.
Qed.

Lemma run_keeps_directory_checked_witness :
  let today := mkdatetime 2024 6 1 9 0 0 0 in
  book_checked
    (ending_book
       (snd (Bot.main false None
               [(today, u "add Alice 0501234567");
                (today, u "add-birthday Alice 5.6.1990");
                (today, u "change Alice 0501234567 12");
                (today, u "exit")]))).
Proof.
  intros today. apply run_keeps_directory_checked. discriminate.
Defined.
